(** * XMouse_Remote: a mouse wrapper over a display server connection

    A shallow embedding of [XMouse_Remote] (src/__init__.py) and the
    properties of its operations.

    The class keeps four attributes ([display], [button_ids],
    [relative_constraints], [absolute_constraints]) and talks to the display
    server through three requests of the binding: [fake_input],
    [display.sync] and [query_pointer].  Methods are embedded as
    computations in a state-and-exception monad over a heap that holds the
    object's attributes and the display server. *)

From stdpp Require Import gmap strings list.
From Stdlib Require Import ZArith QArith Lia.

Local Open Scope Z_scope.

(** * Python values and exceptions *)

(** The values a caller can pass as [button_ids].  [PyDict] is an object
    whose type is exactly [dict]; [PyMapping] is any other mapping (an
    [OrderedDict], a subclass of [dict], a mapping proxy). *)
Inductive py_value : Type :=
| PyNone
| PyBool (b : bool)
| PyInt (n : Z)
| PyStr (s : string)
| PyList (l : list Z)
| PyDict (d : gmap string Z)
| PyMapping (d : gmap string Z).

Definition is_mapping (v : py_value) : bool :=
  match v with
  | PyDict _ | PyMapping _ => true
  | _ => false
  end.

Inductive exn : Type :=
| NameError (name : string)
| KeyError (key : Z)
| IndexError
| TypeError
| StructError
| OverflowError
| DisplayConnectionError.

Inductive outcome (A : Type) : Type :=
| Returned (a : A)
| Raised (e : exn).

Arguments Returned {A} a.
Arguments Raised {A} e.

(** * The display server

    The server and its binding are not part of the repository.  They are
    modelled as far as the class observes them: a screen size, a pointer
    position that is always on the screen, and the three requests.  An
    absolute motion places the pointer at the requested position, clamped to
    the screen; other clients and the user may move the pointer between any
    two requests, which the [external] schedule describes: before each
    action of this client the head of the schedule is consumed, and
    [Some p] there moves the pointer to [p]. *)

(** [X.ButtonPress], [X.ButtonRelease], [X.MotionNotify] *)
Inductive event_type : Type :=
| ButtonPress
| ButtonRelease
| MotionNotify.

#[global] Instance event_type_eq_dec : EqDecision event_type.
Proof. solve_decision. Defined.

(** What a mock server and a mock clock record, in order. *)
Inductive action : Type :=
| FakeInput (t : event_type) (detail x y : Z)
| Sync
| QueryPointer
| Sleep (seconds : Q).

Record XServer : Type := mkXServer {
  accepts : option string → bool;
  announced_width : Z;
  announced_height : Z;
  pointer : Z * Z;
  trace : list action;
  external : list (option (Z * Z))
}.

(** Modelled from the spec: the protocol carries a position as two signed
    16-bit integers, so a screen has at most 32768 columns and rows; a
    server that announces more is taken at that size. *)
Definition screen_width (s : XServer) : Z := Z.min (announced_width s) 32768.

Definition screen_height (s : XServer) : Z := Z.min (announced_height s) 32768.

(** Modelled from the spec: the server may clamp a requested position, and
    the pixels of a screen are [0 .. width - 1] by [0 .. height - 1]. *)
Definition clamp (lo hi v : Z) : Z := Z.max lo (Z.min hi v).

Definition place (s : XServer) (p : Z * Z) : Z * Z :=
  (clamp 0 (screen_width s - 1) p.1, clamp 0 (screen_height s - 1) p.2).

(** Modelled from the spec: another process may move the pointer between
    two requests of this client.  One step of the other clients. *)
Definition intrude (s : XServer) : XServer :=
  match external s with
  | [] => s
  | e :: rest =>
      mkXServer (accepts s) (announced_width s) (announced_height s)
                (match e with Some p => place s p | None => pointer s end)
                (trace s) rest
  end.

(** Modelled from the spec: a synthesized motion event moves the pointer,
    button events and the other requests do not, and the server keeps the
    pointer on the screen.  For a motion event a zero [detail] is an
    absolute position and any other a relative one. *)
Definition moved (a : action) (s : XServer) : Z * Z :=
  match a with
  | FakeInput MotionNotify detail x y =>
      if detail =? 0 then place s (x, y)
      else place s ((pointer s).1 + x, (pointer s).2 + y)
  | _ => place s (pointer s)
  end.

(** Modelled from the spec: the server handles the requests of a
    connection in the order they were issued. *)
Definition serve (a : action) (s : XServer) : XServer :=
  let s' := intrude s in
  mkXServer (accepts s') (announced_width s') (announced_height s')
            (moved a s') (trace s' ++ [a]) (external s').

Definition serves (l : list action) (s : XServer) : XServer :=
  fold_left (λ s a, serve a s) l s.

(** No other client moves the pointer. *)
Definition undisturbed (s : XServer) : bool :=
  forallb (λ e, match e with None => true | Some _ => false end) (external s).

Definition on_screen (s : XServer) (x y : Z) : Prop :=
  0 <= x < screen_width s ∧ 0 <= y < screen_height s.

(** * The object *)

(** The client side of a connection: [Display(display)], with the screen
    geometry the server sent when the connection was set up. *)
Record Display : Type := mkDisplay {
  display_name : option string;
  width_in_pixels : Z;
  height_in_pixels : Z
}.

Record XMouse_Remote : Type := mkXMouse_Remote {
  display : Display;
  button_ids : gmap string Z;
  relative_constraints : gmap string Z;
  absolute_constraints : gmap string Z
}.

Record Heap : Type := mkHeap {
  this : XMouse_Remote;
  server : XServer
}.

(** * The monad of methods *)

Definition M (A : Type) : Type := Heap → outcome A * Heap.

#[global] Instance M_ret : MRet M := λ A a h, (Returned a, h).

#[global] Instance M_bind : MBind M := λ A B f m h,
  match m h with
  | (Returned a, h') => f a h'
  | (Raised e, h') => (Raised e, h')
  end.

Definition raise {A : Type} (e : exn) : M A := λ h, (Raised e, h).

(** [self.<attribute>] *)
Definition attr {A : Type} (f : XMouse_Remote → A) : M A :=
  λ h, (Returned (f (this h)), h).

Definition attr_server {A : Type} (f : XServer → A) : M A :=
  λ h, (Returned (f (server h)), h).

Definition request (a : action) : M unit :=
  λ h, (Returned tt, mkHeap (this h) (serve a (server h))).

Definition when (b : bool) (m : M unit) : M unit :=
  if b then m else mret tt.

(** [for _ in range(n): body] *)
Fixpoint for_range (n : nat) (body : M unit) : M unit :=
  match n with
  | O => mret tt
  | S k => body ;; for_range k body
  end.

(** [range(times)] is empty for a negative [times]. *)
Definition range (times : Z) : nat := Z.to_nat times.

(** ** The binding *)

(** [CARD8]: what fits an unsigned byte *)
Definition card8 (v : Z) : bool := (0 <=? v) && (v <=? 255).

(** [INT16]: what fits a signed 16-bit integer *)
Definition int16 (v : Z) : bool := (-32768 <=? v) && (v <=? 32767).

(** Modelled from the spec: the binding synthesizes an input event from
    its kind, [detail], [x] and [y].  It packs the request before it sends
    it, [detail] as a [CARD8] and [x] and [y] as [INT16], and raises
    [struct.error], with nothing sent, when a value does not fit. *)
Definition fake_input (t : event_type) (detail x y : Z) : M unit :=
  if card8 detail && int16 x && int16 y
  then request (FakeInput t detail x y)
  else raise StructError.

Definition display_sync : M unit := request Sync.

(** [self.display.screen().root.query_pointer()._data], of which the class
    reads [root_x] and [root_y]. *)
Definition query_pointer : M (Z * Z) :=
  request QueryPointer ;; attr_server pointer.

(** The longest time [time.sleep] takes: a signed 64-bit count of
    nanoseconds. *)
Definition sleep_limit : Q := (9223372036854775807 # 1000000000)%Q.

(** Modelled from the spec: a delay is a thread-blocking sleep.
    [time.sleep] converts its argument to nanoseconds first and raises
    [OverflowError], without sleeping, when the count does not fit. *)
Definition time_sleep (seconds : Q) : M unit :=
  if Qle_bool seconds sleep_limit
  then request (Sleep seconds)
  else raise OverflowError.

(** [0 < d] on delays *)
Definition Qpositive (d : Q) : bool := negb (Qle_bool d 0).

(** [if delays.get(k, 0) > 0: time.sleep(delays[k])] *)
Definition delay (delays : gmap Z Q) (k : Z) : M unit :=
  when (Qpositive (default 0%Q (delays !! k)))
       (match delays !! k with
        | Some d => time_sleep d
        | None => raise (KeyError k)
        end).

(** The names bound at module level: two modules, three functions or
    classes and a string.  [_target_id] is not one of them, and no method
    but [button_press] and [button_release] binds it locally. *)
Definition module_globals : list string :=
  ["time"; "Display"; "X"; "fake_input"; "__license__"; "XMouse_Remote"]%string.

(** Reading, where a button id is expected, a name that the enclosing
    function does not bind: a module-level name is no integer, and any other
    name is unbound. *)
Definition global_name (name : string) : M Z :=
  if bool_decide (name ∈ module_globals) then raise TypeError
  else raise (NameError name).

(** * The class *)

Definition default_button_ids : gmap string Z :=
  <["button_left" := 1]> (<["button_middle" := 2]> (<["button_right" := 3]>
  (<["scroll_up" := 4]> (<["scroll_down" := 5]> (<["scroll_left" := 6]>
  (<["scroll_right" := 7]> ∅)))))).

(** [Display(display)] *)
Definition connect (name : option string) (s : XServer) : outcome Display :=
  if accepts s name
  then Returned (mkDisplay name (screen_width s) (screen_height s))
  else Raised DisplayConnectionError.

Definition __init__ (display : option string) (button_ids : py_value)
    (s : XServer) : outcome XMouse_Remote :=
  match connect display s with
  | Raised e => Raised e
  | Returned self_display =>
      (* [if type(self.button_ids) is not dict] *)
      let self_button_ids :=
        match button_ids with
        | PyDict d => d
        | _ => default_button_ids
        end in
      Returned (mkXMouse_Remote self_display self_button_ids
        (<["min_x" := -25]> (<["max_x" := 25]>
           (<["min_y" := -25]> (<["max_y" := 25]> ∅))))
        (<["min_x" := 0]> (<["max_x" := width_in_pixels self_display]>
           (<["min_y" := 0]> (<["max_y" := height_in_pixels self_display]> ∅)))))
  end.

Definition location : M (list Z) :=
  _coordinates ← query_pointer;
  mret [_coordinates.1; _coordinates.2].

Definition button_press (detail : Z) (button_name : option string)
    (sync : bool) : M unit :=
  _target_id ← match button_name with
               | None => mret detail
               | Some name => ids ← attr button_ids; mret (default 1 (ids !! name))
               end;
  fake_input ButtonPress _target_id 0 0 ;;
  when sync display_sync.

Definition button_release (detail : Z) (button_name : option string)
    (sync : bool) : M unit :=
  _target_id ← match button_name with
               | None => mret detail
               | Some name => ids ← attr button_ids; mret (default 1 (ids !! name))
               end;
  fake_input ButtonRelease detail 0 0 ;;
  when sync display_sync.

Definition button_click (detail : Z) (button_name : option string)
    (times : Z) (sync : bool) (delays : gmap Z Q) : M unit :=
  for_range (range times)
    (button_press detail button_name sync ;;
     delay delays 0 ;;
     button_release detail button_name sync).

Definition move_absolute (x y : Z) (sync : bool) : M (list Z) :=
  fake_input MotionNotify 0 x y ;;
  when sync display_sync ;;
  location.

(** Calling a function of two positional parameters with an unpacked
    argument list. *)
Definition unpack2 {A : Type} (args : list Z) (f : Z → Z → M A) : M A :=
  match args with
  | [a; b] => f a b
  | _ => raise TypeError
  end.

(** [l[i] = l[i] + d] *)
Definition add_at (i : nat) (d : Z) (l : list Z) : outcome (list Z) :=
  match l !! i with
  | Some v => Returned (<[i := v + d]> l)
  | None => Raised IndexError
  end.

Definition lift {A : Type} (o : outcome A) : M A := λ h, (o, h).

Definition move_relative (x y : Z) (sync : bool) : M (list Z) :=
  _new_location ← location;
  _new_location ← (if negb (x =? 0) then lift (add_at 0 x _new_location)
                   else mret _new_location);
  _new_location ← (if negb (y =? 0) then lift (add_at 1 y _new_location)
                   else mret _new_location);
  unpack2 _new_location (λ a b, move_absolute a b sync).

Definition drag_absolute (x y : Z) (detail : Z) (button_name : option string)
    (sync : bool) (delays : gmap Z Q) : M (list Z) :=
  button_press detail button_name sync ;;
  delay delays 0 ;;
  move_absolute x y sync ;;
  delay delays 1 ;;
  _target_id ← global_name "_target_id";
  button_release _target_id None sync ;;
  location.

Definition drag_relative (x y : Z) (detail : Z) (button_name : option string)
    (sync : bool) (delays : gmap Z Q) : M (list Z) :=
  button_press detail button_name sync ;;
  delay delays 0 ;;
  move_relative x y sync ;;
  delay delays 1 ;;
  button_release detail button_name sync ;;
  location.

(** The default of [delays] in [button_click]: [{0: 0.01}] *)
Definition click_delays : gmap Z Q := {[ 0 := (1 # 100)%Q ]}.

(** The default of [delays] in the drags: [{0: 0.01, 1: 0.01}] *)
Definition drag_delays : gmap Z Q := <[0 := (1 # 100)%Q]> {[ 1 := (1 # 100)%Q ]}.

Definition scroll (x y : Z) : M unit :=
  ids ← attr button_ids;
  (if 0 <? y then button_click (default 4 (ids !! "scroll_up")) None y true click_delays
   else if y <? 0 then button_click (default 5 (ids !! "scroll_down")) None (Z.abs y) true click_delays
   else mret tt) ;;
  (if 0 <? x then button_click (default 6 (ids !! "scroll_left")) None x true click_delays
   else if x <? 0 then button_click (default 7 (ids !! "scroll_right")) None (Z.abs x) true click_delays
   else mret tt).

(** * What a mock server is expected to record *)

(** The button a call selects: the name, when one is given, decides. *)
Definition resolve (ids : gmap string Z) (detail : Z)
    (button_name : option string) : Z :=
  match button_name with
  | None => detail
  | Some name => default 1 (ids !! name)
  end.

Definition sync_script (sync : bool) : list action :=
  if sync then [Sync] else [].

Definition delay_script (delays : gmap Z Q) (k : Z) : list action :=
  match delays !! k with
  | Some d => if Qpositive d then [Sleep d] else []
  | None => []
  end.

Definition press_script (id : Z) (sync : bool) : list action :=
  FakeInput ButtonPress id 0 0 :: sync_script sync.

Definition release_script (id : Z) (sync : bool) : list action :=
  FakeInput ButtonRelease id 0 0 :: sync_script sync.

Definition motion_script (x y : Z) (sync : bool) : list action :=
  FakeInput MotionNotify 0 x y :: sync_script sync ++ [QueryPointer].

(** The button events of a trace, in order. *)
Fixpoint button_events (l : list action) : list (event_type * Z) :=
  match l with
  | [] => []
  | FakeInput ButtonPress d _ _ :: rest => (ButtonPress, d) :: button_events rest
  | FakeInput ButtonRelease d _ _ :: rest => (ButtonRelease, d) :: button_events rest
  | _ :: rest => button_events rest
  end.

(** The targets of the motion events of a trace, in order. *)
Fixpoint motions (l : list action) : list (Z * Z) :=
  match l with
  | [] => []
  | FakeInput MotionNotify _ x y :: rest => (x, y) :: motions rest
  | _ :: rest => motions rest
  end.

(** How many events of kind [t] a trace has for button [id]. *)
Definition count_button (t : event_type) (id : Z) (l : list action) : nat :=
  length (filter (λ e, e = (t, id)) (button_events l)).

(** No press is followed directly by another press. *)
Fixpoint no_adjacent_press (l : list (event_type * Z)) : bool :=
  match l with
  | (ButtonPress, _) :: (((ButtonPress, _) :: _) as rest) => false
  | _ :: rest => no_adjacent_press rest
  | [] => true
  end.

(** An action that is not a motion leaves the pointer where it is. *)
Definition still (a : action) : bool :=
  match a with
  | FakeInput MotionNotify _ _ _ => false
  | _ => true
  end.

(** The heap after the server has been sent [l]: the object is the same. *)
Definition after (l : list action) (h : Heap) : Heap :=
  mkHeap (this h) (serves l (server h)).

(** The location a query answers when it is the next request. *)
Definition answer (h : Heap) : Z * Z := pointer (serve QueryPointer (server h)).

(** One round of [button_click]: the press and the release each carry
    their own button id. *)
Definition click_script (pressed released : Z) (sync : bool)
    (delays : gmap Z Q) : list action :=
  press_script pressed sync ++ delay_script delays 0 ++ release_script released sync.

Ltac run := unfold mbind, M_bind, mret, M_ret; simpl.

(** [n] clicks of the scroll button [id], as [scroll] asks for them: with
    the defaults of [button_click]. *)
Definition clicks (id : Z) (n : Z) : list action :=
  concat (replicate (Z.to_nat n) (click_script id id true click_delays)).

Definition vertical_button (ids : gmap string Z) (y : Z) : Z :=
  if 0 <? y then default 4 (ids !! "scroll_up")
  else default 5 (ids !! "scroll_down").

Definition horizontal_button (ids : gmap string Z) (x : Z) : Z :=
  if 0 <? x then default 6 (ids !! "scroll_left")
  else default 7 (ids !! "scroll_right").

Definition scroll_script (ids : gmap string Z) (x y : Z) : list action :=
  clicks (vertical_button ids y) (Z.abs y) ++ clicks (horizontal_button ids x) (Z.abs x).

(** What the client did between the heaps [h] and [h']. *)
Definition issued (h h' : Heap) : list action :=
  drop (length (trace (server h))) (trace (server h')).

(** ** A session to evaluate the methods on *)

(** A server that accepts every connection and whose pointer nobody else
    moves. *)
Definition idle_server (width height : Z) (p : Z * Z) : XServer :=
  mkXServer (λ _, true) width height p [] [].

(** [XMouse_Remote(display, button_ids)] on the server [s] *)
Definition session (display : option string) (button_ids : py_value)
    (s : XServer) : option Heap :=
  match __init__ display button_ids s with
  | Returned self => Some (mkHeap self s)
  | Raised _ => None
  end.

(** [XMouse_Remote()] on an idle server with a 1920 by 1080 screen and the
    pointer at (100, 100). *)
Definition fresh : Heap :=
  let s := idle_server 1920 1080 (100, 100) in
  match session None PyNone s with
  | Some h => h
  | None => mkHeap (mkXMouse_Remote (mkDisplay None 0 0) ∅ ∅ ∅) s
  end.

(** Reading the motions off a script. *)
Create Rewrite HintDb motions.

Ltac read_motions :=
  repeat progress (autorewrite with motions; cbn [motions app]).

(** The public methods, as a caller invokes them one after the other. *)
Inductive call : Type :=
| GetLocation
| PressButton (detail : Z) (button_name : option string) (sync : bool)
| ReleaseButton (detail : Z) (button_name : option string) (sync : bool)
| ClickButton (detail : Z) (button_name : option string) (times : Z)
    (sync : bool) (delays : gmap Z Q)
| MoveAbsolute (x y : Z) (sync : bool)
| MoveRelative (x y : Z) (sync : bool)
| DragAbsolute (x y : Z) (detail : Z) (button_name : option string)
    (sync : bool) (delays : gmap Z Q)
| DragRelative (x y : Z) (detail : Z) (button_name : option string)
    (sync : bool) (delays : gmap Z Q)
| Scroll (x y : Z).

(** The heap a call leaves behind, whether it returns or raises. *)
Definition perform (h : Heap) (c : call) : Heap :=
  match c with
  | GetLocation => (location h).2
  | PressButton detail button_name sync => (button_press detail button_name sync h).2
  | ReleaseButton detail button_name sync => (button_release detail button_name sync h).2
  | ClickButton detail button_name times sync delays =>
      (button_click detail button_name times sync delays h).2
  | MoveAbsolute x y sync => (move_absolute x y sync h).2
  | MoveRelative x y sync => (move_relative x y sync h).2
  | DragAbsolute x y detail button_name sync delays =>
      (drag_absolute x y detail button_name sync delays h).2
  | DragRelative x y detail button_name sync delays =>
      (drag_relative x y detail button_name sync delays h).2
  | Scroll x y => (scroll x y h).2
  end.

Definition perform_all (calls : list call) (h : Heap) : Heap :=
  fold_left perform calls h.

(** ** What the binding and the clock refuse *)

(** The actions that can be carried out: an event the binding can pack, a
    sleep the clock can take, and any sync or query. *)
Definition sendable (a : action) : bool :=
  match a with
  | FakeInput _ detail x y => card8 detail && int16 x && int16 y
  | Sleep d => Qle_bool d sleep_limit
  | _ => true
  end.

(** What is raised for an action that cannot be carried out. *)
Definition refused (a : action) : exn :=
  match a with
  | Sleep _ => OverflowError
  | _ => StructError
  end.

(** The part of a script that is carried out: all of it up to the first
    action that cannot be. *)
Fixpoint sent (l : list action) : list action :=
  match l with
  | [] => []
  | a :: rest => if sendable a then a :: sent rest else []
  end.

(** The exception a script ends with, if it does not run to its end. *)
Fixpoint refusal (l : list action) : option exn :=
  match l with
  | [] => None
  | a :: rest => if sendable a then refusal rest else Some (refused a)
  end.

Definition step (a : action) : M unit :=
  if sendable a then request a else raise (refused a).

(** Carrying out a script, one action after the other. *)
Fixpoint play (l : list action) : M unit :=
  match l with
  | [] => mret tt
  | a :: rest => step a ;; play rest
  end.

(** The value [location] returns once its query is answered. *)
Definition located : M (list Z) :=
  λ h, (Returned [(pointer (server h)).1; (pointer (server h)).2], h).

(** The delay [delays] holds for [k], if any, is one the clock can take. *)
Definition sleepable (delays : gmap Z Q) (k : Z) : bool :=
  match delays !! k with
  | Some d => Qle_bool d sleep_limit
  | None => true
  end.

Definition is_release (a : action) : bool :=
  match a with
  | FakeInput ButtonRelease _ _ _ => true
  | _ => false
  end.

(** ** The calls as a whole *)

(** The exception a result carries, if any. *)
Definition raised {A : Type} (r : outcome A * Heap) : option exn :=
  match r.1 with
  | Returned _ => None
  | Raised e => Some e
  end.

(** The exception a call ends with, if any. *)
Definition failure (h : Heap) (c : call) : option exn :=
  match c with
  | GetLocation => raised (location h)
  | PressButton detail button_name sync => raised (button_press detail button_name sync h)
  | ReleaseButton detail button_name sync =>
      raised (button_release detail button_name sync h)
  | ClickButton detail button_name times sync delays =>
      raised (button_click detail button_name times sync delays h)
  | MoveAbsolute x y sync => raised (move_absolute x y sync h)
  | MoveRelative x y sync => raised (move_relative x y sync h)
  | DragAbsolute x y detail button_name sync delays =>
      raised (drag_absolute x y detail button_name sync delays h)
  | DragRelative x y detail button_name sync delays =>
      raised (drag_relative x y detail button_name sync delays h)
  | Scroll x y => raised (scroll x y h)
  end.

(** What a call is expected to send when it starts in the heap [h]. *)
Definition script_of (h : Heap) (c : call) : list action :=
  let ids := button_ids (this h) in
  match c with
  | GetLocation => [QueryPointer]
  | PressButton detail button_name sync =>
      press_script (resolve ids detail button_name) sync
  | ReleaseButton detail button_name sync => release_script detail sync
  | ClickButton detail button_name times sync delays =>
      concat (replicate (range times)
                (click_script (resolve ids detail button_name) detail sync delays))
  | MoveAbsolute x y sync => motion_script x y sync
  | MoveRelative x y sync =>
      QueryPointer :: motion_script ((answer h).1 + x) ((answer h).2 + y) sync
  | DragAbsolute x y detail button_name sync delays =>
      press_script (resolve ids detail button_name) sync
      ++ delay_script delays 0
      ++ motion_script x y sync
      ++ delay_script delays 1
  | DragRelative x y detail button_name sync delays =>
      let pressed := after (press_script (resolve ids detail button_name) sync
                            ++ delay_script delays 0) h in
      (press_script (resolve ids detail button_name) sync ++ delay_script delays 0)
      ++ (QueryPointer
          :: motion_script ((answer pressed).1 + x) ((answer pressed).2 + y) sync
          ++ delay_script delays 1
          ++ release_script detail sync)
      ++ [QueryPointer]
  | Scroll x y => scroll_script ids x y
  end.

(** The [sync] a call runs with: [scroll] clicks with the default, and
    [location] has nothing to sync. *)
Definition sync_of (c : call) : bool :=
  match c with
  | GetLocation => false
  | PressButton _ _ sync | ReleaseButton _ _ sync | ClickButton _ _ _ sync _
  | MoveAbsolute _ _ sync | MoveRelative _ _ sync
  | DragAbsolute _ _ _ _ sync _ | DragRelative _ _ _ _ sync _ => sync
  | Scroll _ _ => true
  end.

Definition is_sync (a : action) : bool :=
  match a with
  | Sync => true
  | _ => false
  end.

Definition is_query (a : action) : bool :=
  match a with
  | QueryPointer => true
  | _ => false
  end.

(** Every synthesized event is directly followed by a [Sync]. *)
Fixpoint each_input_synced (l : list action) : bool :=
  match l with
  | [] => true
  | FakeInput _ _ _ _ :: rest =>
      match rest with
      | Sync :: _ => each_input_synced rest
      | _ => false
      end
  | _ :: rest => each_input_synced rest
  end.

(** Every sleep of a trace is for a positive time. *)
Definition sleeps_positive (l : list action) : Prop :=
  Forall (λ a, match a with Sleep d => (0 < d)%Q | _ => True end) l.

(** * The server under a script *)

Section Server.
Implicit Types (s : XServer) (a : action) (l : list action).

Lemma trace_intrude s : trace (intrude s) = trace s.
Proof. unfold intrude. by destruct (external s). Qed.

Lemma trace_serve a s : trace (serve a s) = trace s ++ [a].
Proof. unfold serve; simpl. by rewrite trace_intrude. Qed.

Lemma serves_app l1 l2 s : serves (l1 ++ l2) s = serves l2 (serves l1 s).
Proof. apply fold_left_app. Qed.

Lemma trace_serves l s : trace (serves l s) = trace s ++ l.
Proof.
  revert s; induction l as [|a l IH]; intros s; simpl.
  - by rewrite app_nil_r.
  - rewrite IH, trace_serve, <- app_assoc. done.
Qed.

Lemma screen_intrude s :
  screen_width (intrude s) = screen_width s ∧
  screen_height (intrude s) = screen_height s.
Proof. unfold intrude. by destruct (external s). Qed.

Lemma screen_serve a s :
  screen_width (serve a s) = screen_width s ∧
  screen_height (serve a s) = screen_height s.
Proof. apply screen_intrude. Qed.

Lemma screen_serves l s :
  screen_width (serves l s) = screen_width s ∧
  screen_height (serves l s) = screen_height s.
Proof.
  revert s; induction l as [|a l IH]; intros s; simpl; [done|].
  destruct (IH (serve a s)) as [-> ->]. apply screen_serve.
Qed.

Lemma on_screen_serves l s x y : on_screen s x y → on_screen (serves l s) x y.
Proof. unfold on_screen. by destruct (screen_serves l s) as [-> ->]. Qed.

(** Without other clients only this client's motions move the pointer. *)
Lemma undisturbed_intrude s :
  undisturbed s = true →
  pointer (intrude s) = pointer s ∧ undisturbed (intrude s) = true.
Proof.
  unfold undisturbed, intrude.
  destruct (external s) as [|[p|] rest] eqn:E; simpl; intros H.
  - by rewrite E.
  - discriminate H.
  - done.
Qed.

Lemma undisturbed_serve a s :
  undisturbed s = true → undisturbed (serve a s) = true.
Proof. intros H. unfold serve, undisturbed; simpl. by apply undisturbed_intrude. Qed.

Lemma undisturbed_serves l s :
  undisturbed s = true → undisturbed (serves l s) = true.
Proof.
  revert s; induction l as [|a l IH]; intros s H; simpl; [done|].
  by apply IH, undisturbed_serve.
Qed.

Lemma clamp_inside lo hi v : lo <= v <= hi → clamp lo hi v = v.
Proof. unfold clamp. lia. Qed.

Lemma place_on_screen s x y : on_screen s x y → place s (x, y) = (x, y).
Proof.
  intros [Hx Hy]. unfold place; simpl.
  rewrite !clamp_inside by lia. done.
Qed.

(** A position on the screen fits the protocol. *)
Lemma on_screen_int16 s x y : on_screen s x y → int16 x = true ∧ int16 y = true.
Proof.
  unfold on_screen, screen_width, screen_height, int16. intros [Hx Hy].
  split; apply andb_true_intro; split; apply Z.leb_le; lia.
Qed.

(** Where the server puts the pointer fits the protocol, whatever the
    screen is. *)
Lemma place_int16 s p : int16 (place s p).1 = true ∧ int16 (place s p).2 = true.
Proof.
  unfold place, clamp, screen_width, screen_height, int16; simpl.
  split; apply andb_true_intro; split; apply Z.leb_le; lia.
Qed.

Lemma pointer_serve_still a s :
  undisturbed s = true → still a = true →
  on_screen s (pointer s).1 (pointer s).2 →
  pointer (serve a s) = pointer s.
Proof.
  intros Hs Ha Hp. unfold serve; simpl.
  destruct (undisturbed_intrude s Hs) as [Hi _].
  assert (moved a (intrude s) = place (intrude s) (pointer (intrude s))) as ->
    by by destruct a as [[] ? ? ?| | |].
  rewrite Hi. destruct (pointer s) as [px py]. apply place_on_screen.
  unfold on_screen. by destruct (screen_intrude s) as [-> ->].
Qed.

Lemma pointer_serves_still l s :
  undisturbed s = true → forallb still l = true →
  on_screen s (pointer s).1 (pointer s).2 →
  pointer (serves l s) = pointer s.
Proof.
  revert s; induction l as [|a l IH]; intros s Hs Hl Hp; simpl in *; [done|].
  apply andb_prop in Hl as [Ha Hl].
  assert (pointer (serve a s) = pointer s) as E by by apply pointer_serve_still.
  rewrite IH; [done | by apply undisturbed_serve | done |].
  rewrite E. unfold on_screen. by destruct (screen_serve a s) as [-> ->].
Qed.

Lemma pointer_serve_motion x y s :
  undisturbed s = true → on_screen s x y →
  pointer (serve (FakeInput MotionNotify 0 x y) s) = (x, y).
Proof.
  intros Hs Hxy. unfold serve; simpl.
  apply place_on_screen. destruct (screen_intrude s) as [Hw Hh].
  unfold on_screen. by rewrite Hw, Hh.
Qed.

(** A motion onto the screen, among actions that are none, decides where
    the pointer is when no other client moves it. *)
Lemma pointer_serves_motion l1 l2 x y s :
  undisturbed s = true → forallb still l2 = true → on_screen s x y →
  pointer (serves (l1 ++ FakeInput MotionNotify 0 x y :: l2) s) = (x, y).
Proof.
  intros Hs H2 Hxy. rewrite serves_app. simpl.
  assert (pointer (serve (FakeInput MotionNotify 0 x y) (serves l1 s)) = (x, y)) as E.
  { apply pointer_serve_motion; [by apply undisturbed_serves|].
    by apply on_screen_serves. }
  rewrite pointer_serves_still; [done | | done |].
  - by apply undisturbed_serve, undisturbed_serves.
  - rewrite E. simpl. unfold on_screen.
    destruct (screen_serve (FakeInput MotionNotify 0 x y) (serves l1 s)) as [-> ->].
    by apply on_screen_serves.
Qed.

Lemma still_sync_script sync : forallb still (sync_script sync) = true.
Proof. by destruct sync. Qed.

Lemma still_delay_script delays k : forallb still (delay_script delays k) = true.
Proof.
  unfold delay_script. destruct (delays !! k) as [d|]; [|done].
  by destruct (Qpositive d).
Qed.

Lemma still_press id sync : forallb still (press_script id sync) = true.
Proof. simpl. apply still_sync_script. Qed.

Lemma still_release id sync : forallb still (release_script id sync) = true.
Proof. simpl. apply still_sync_script. Qed.

Lemma serve_query_last l s :
  serve QueryPointer (serves l s) = serves (l ++ [QueryPointer]) s.
Proof. by rewrite serves_app. Qed.
End Server.

(** * Scripts that may be refused *)

Section Scripts.
Implicit Types (h : Heap) (l : list action) (a : action).

Lemma after_nil h : after [] h = h.
Proof. by destruct h. Qed.

Lemma after_app l1 l2 h : after (l1 ++ l2) h = after l2 (after l1 h).
Proof. unfold after; simpl. by rewrite serves_app. Qed.

Lemma after_cons a l h : after (a :: l) h = after l (after [a] h).
Proof. apply (after_app [a] l). Qed.

Lemma this_after l h : this (after l h) = this h.
Proof. done. Qed.

Lemma issued_after l h : issued h (after l h) = l.
Proof. unfold issued, after; simpl. by rewrite trace_serves, drop_app_length. Qed.

Lemma sendable_all l : forallb sendable l = true → sent l = l ∧ refusal l = None.
Proof.
  induction l as [|a l IH]; simpl; [done|].
  intros [Ha Hl]%andb_prop. rewrite Ha. destruct (IH Hl) as [-> ->]. done.
Qed.

Lemma refusal_none l : refusal l = None → sent l = l.
Proof.
  induction l as [|a l IH]; simpl; [done|].
  destruct (sendable a); [|done]. intros H. by rewrite IH.
Qed.

Lemma refusal_none_sendable l : refusal l = None → forallb sendable l = true.
Proof.
  induction l as [|a l IH]; simpl; [done|].
  destruct (sendable a); [|done]. intros H. by rewrite IH.
Qed.

Lemma sent_app l1 l2 :
  sent (l1 ++ l2) = match refusal l1 with
                    | None => l1 ++ sent l2
                    | Some _ => sent l1
                    end.
Proof.
  induction l1 as [|a l1 IH]; simpl; [done|].
  destruct (sendable a); [|done]. rewrite IH. by destruct (refusal l1).
Qed.

Lemma refusal_app l1 l2 :
  refusal (l1 ++ l2) = match refusal l1 with
                       | None => refusal l2
                       | Some e => Some e
                       end.
Proof.
  induction l1 as [|a l1 IH]; simpl; [done|].
  by destruct (sendable a).
Qed.

(** What is carried out is the beginning of the script. *)
Lemma sent_prefix l : ∃ rest, l = sent l ++ rest.
Proof.
  induction l as [|a l [rest IH]]; simpl; [by exists []|].
  destruct (sendable a); [|by eexists].
  exists rest. simpl. by f_equal.
Qed.

Lemma forallb_sent (f : action → bool) l :
  forallb f l = true → forallb f (sent l) = true.
Proof.
  destruct (sent_prefix l) as [rest E]. rewrite E at 1.
  rewrite forallb_app. by intros [? _]%andb_prop.
Qed.

Lemma bind_at {A B : Type} (m : M A) (f : A → M B) h :
  (m ≫= f) h = match m h with
               | (Returned v, h') => f v h'
               | (Raised e, h') => (Raised e, h')
               end.
Proof. done. Qed.

Lemma bind_congr {A B : Type} (m m' : M A) (f f' : A → M B) h :
  m h = m' h → (∀ v h', f v h' = f' v h') → (m ≫= f) h = (m' ≫= f') h.
Proof.
  intros Hm Hf. rewrite !bind_at, Hm. destruct (m' h) as [[v|e] h']; [apply Hf|done].
Qed.

Lemma bind_assoc_at {A B C : Type} (m : M A) (f : A → M B) (g : B → M C) h :
  ((m ≫= f) ≫= g) h = (m ≫= (λ v, f v ≫= g)) h.
Proof. rewrite !bind_at. by destruct (m h) as [[v|e] h']. Qed.

Lemma bind_run {A B : Type} (m : M A) (f : A → M B) v h h' :
  m h = (Returned v, h') → (m ≫= f) h = f v h'.
Proof. intros E. by rewrite bind_at, E. Qed.

Lemma bind_raise {A B : Type} (m : M A) (f : A → M B) e h h' :
  m h = (Raised e, h') → (m ≫= f) h = (Raised e, h').
Proof. intros E. by rewrite bind_at, E. Qed.

Lemma step_run a h :
  step a h = if sendable a then (Returned tt, after [a] h) else (Raised (refused a), h).
Proof. unfold step. by destruct (sendable a). Qed.

(** A script runs to its first refusal. *)
Lemma play_bind {B : Type} l (k : M B) h :
  (play l ;; k) h = match refusal l with
                    | None => k (after l h)
                    | Some e => (Raised e, after (sent l) h)
                    end.
Proof.
  revert h; induction l as [|a l IH]; intros h.
  - simpl. by rewrite after_nil.
  - cbn [play refusal sent]. rewrite bind_assoc_at, bind_at, step_run.
    destruct (sendable a); [|by rewrite after_nil].
    rewrite IH. rewrite (after_cons a l), (after_cons a (sent l)). done.
Qed.

Lemma play_run l h :
  play l h = (match refusal l with None => Returned tt | Some e => Raised e end,
              after (sent l) h).
Proof.
  assert (play l h = (play l ;; mret tt) h) as ->.
  { rewrite bind_at. by destruct (play l h) as [[[]|e] h']. }
  rewrite play_bind. destruct (refusal l) eqn:E; [done|].
  by rewrite (refusal_none l E).
Qed.

Lemma play_app_bind {B : Type} l1 l2 (k : M B) h :
  (play (l1 ++ l2) ;; k) h = (play l1 ;; play l2 ;; k) h.
Proof.
  rewrite (play_bind l1 (play l2 ;; k)), (play_bind (l1 ++ l2) k).
  rewrite refusal_app, sent_app.
  destruct (refusal l1) as [e|] eqn:E1; [done|].
  rewrite (play_bind l2 k). destruct (refusal l2); by rewrite after_app.
Qed.

Lemma play_app l1 l2 h : play (l1 ++ l2) h = (play l1 ;; play l2) h.
Proof.
  rewrite play_run, (play_bind l1 (play l2)), refusal_app, sent_app.
  destruct (refusal l1) as [e|] eqn:E1; [done|].
  by rewrite play_run, after_app.
Qed.

(** A method that is a script can be followed like one. *)
Lemma as_script {B : Type} (m : M unit) l (k : M B) h :
  m h = play l h → (m ;; k) h = (play l ;; k) h.
Proof. intros E. by apply bind_congr. Qed.
End Scripts.

(** * The methods as scripts *)

Section Methods.
Implicit Types (h : Heap) (l : list action).

Lemma step_play a h : step a h = play [a] h.
Proof. simpl. rewrite bind_at. by destruct (step a h) as [[[]|e] h']. Qed.

Lemma fake_input_play t detail x y h :
  fake_input t detail x y h = play [FakeInput t detail x y] h.
Proof. exact (step_play (FakeInput t detail x y) h). Qed.

Lemma time_sleep_play d h : time_sleep d h = play [Sleep d] h.
Proof. exact (step_play (Sleep d) h). Qed.

Lemma when_sync_play sync h : when sync display_sync h = play (sync_script sync) h.
Proof. destruct sync; [|done]. exact (step_play Sync h). Qed.

Lemma delay_play delays k h : delay delays k h = play (delay_script delays k) h.
Proof.
  unfold delay, delay_script. destruct (delays !! k) as [d|]; simpl default.
  - destruct (Qpositive d); [|done]. apply time_sleep_play.
  - by change (Qpositive 0) with false.
Qed.

Lemma button_press_play detail button_name sync h :
  button_press detail button_name sync h =
  play (press_script (resolve (button_ids (this h)) detail button_name) sync) h.
Proof.
  unfold button_press, press_script.
  cbn [play].
  destruct button_name as [name|]; rewrite bind_at;
    cbn [mbind M_bind mret M_ret attr fst snd];
    (apply bind_congr; [done | intros; apply when_sync_play]).
Qed.

Lemma button_release_play detail button_name sync h :
  button_release detail button_name sync h = play (release_script detail sync) h.
Proof.
  unfold button_release, release_script.
  cbn [play].
  destruct button_name as [name|]; rewrite bind_at;
    cbn [mbind M_bind mret M_ret attr fst snd];
    (apply bind_congr; [done | intros; apply when_sync_play]).
Qed.

Lemma this_play l h : this (play l h).2 = this h.
Proof. by rewrite play_run. Qed.

Lemma click_body_play detail button_name sync delays h :
  (button_press detail button_name sync ;;
   delay delays 0 ;;
   button_release detail button_name sync) h =
  play (click_script (resolve (button_ids (this h)) detail button_name) detail
          sync delays) h.
Proof.
  unfold click_script. rewrite play_app.
  apply bind_congr; [apply button_press_play|]. intros _ h1.
  rewrite play_app.
  apply bind_congr; [apply delay_play|]. intros _ h2.
  apply button_release_play.
Qed.

Lemma for_range_play (body : M unit) (script : XMouse_Remote → list action) :
  (∀ h, body h = play (script (this h)) h) →
  ∀ n h, for_range n body h = play (concat (replicate n (script (this h)))) h.
Proof.
  intros Hbody. induction n as [|n IH]; intros h; [done|].
  cbn [for_range replicate concat]. rewrite play_app.
  rewrite (as_script _ _ _ _ (Hbody h)).
  rewrite !play_bind. destruct (refusal (script (this h))); [done|].
  by rewrite IH.
Qed.

Lemma button_click_play detail button_name times sync delays h :
  button_click detail button_name times sync delays h =
  play (concat (replicate (range times)
          (click_script (resolve (button_ids (this h)) detail button_name) detail
             sync delays))) h.
Proof.
  unfold button_click.
  apply (for_range_play _
    (λ o, click_script (resolve (button_ids o) detail button_name) detail
            sync delays)).
  intros h'. apply click_body_play.
Qed.

Lemma location_play h : location h = (play [QueryPointer] ;; located) h.
Proof. done. Qed.

Lemma location_run h :
  location h = (Returned [(answer h).1; (answer h).2], after [QueryPointer] h).
Proof. done. Qed.

Lemma move_absolute_play x y sync h :
  move_absolute x y sync h = (play (motion_script x y sync) ;; located) h.
Proof.
  unfold move_absolute, motion_script.
  rewrite (play_app_bind [FakeInput MotionNotify 0 x y]
             (sync_script sync ++ [QueryPointer]) located).
  apply bind_congr; [apply fake_input_play|]. intros _ h1.
  rewrite (play_app_bind (sync_script sync) [QueryPointer] located).
  apply bind_congr; [apply when_sync_play|]. intros _ h2.
  apply location_play.
Qed.

Lemma move_relative_run x y sync h :
  move_relative x y sync h =
  move_absolute ((answer h).1 + x) ((answer h).2 + y) sync (after [QueryPointer] h).
Proof.
  unfold move_relative.
  rewrite (bind_run _ _ _ _ _ (location_run h)).
  destruct (Z.eqb_spec x 0) as [->|Hx], (Z.eqb_spec y 0) as [->|Hy];
    rewrite ?bind_at; cbn [negb lift add_at lookup list_lookup fst snd];
    rewrite ?bind_at; cbn [negb lift add_at lookup list_lookup fst snd];
    by rewrite ?Z.add_0_r.
Qed.

Lemma move_relative_play x y sync h :
  move_relative x y sync h =
  (play (QueryPointer :: motion_script ((answer h).1 + x) ((answer h).2 + y) sync)
   ;; located) h.
Proof.
  rewrite move_relative_run, move_absolute_play.
  symmetry.
  exact (play_app_bind [QueryPointer]
           (motion_script ((answer h).1 + x) ((answer h).2 + y) sync) located h).
Qed.

(** A value that is returned and dropped does not show. *)
Lemma located_dropped {B : Type} l (k : M B) h :
  ((play l ;; located) ;; k) h = (play l ;; k) h.
Proof. rewrite bind_assoc_at. by apply bind_congr. Qed.
End Methods.

Section Compound.
Implicit Types (h : Heap) (l : list action).

Lemma global_name_target_id h :
  global_name "_target_id" h = (Raised (NameError "_target_id"), h).
Proof. done. Qed.

Lemma drag_absolute_play x y detail button_name sync delays h :
  drag_absolute x y detail button_name sync delays h =
  (play (press_script (resolve (button_ids (this h)) detail button_name) sync
         ++ delay_script delays 0
         ++ motion_script x y sync
         ++ delay_script delays 1)
   ;; raise (NameError "_target_id")) h.
Proof.
  unfold drag_absolute.
  rewrite (play_app_bind (press_script _ sync) _ (raise (NameError "_target_id"))).
  apply bind_congr; [apply button_press_play|]. intros _ h1.
  rewrite (play_app_bind (delay_script delays 0) _ (raise (NameError "_target_id"))).
  apply bind_congr; [apply delay_play|]. intros _ h2.
  rewrite (play_app_bind (motion_script x y sync) _ (raise (NameError "_target_id"))).
  rewrite <- (located_dropped (motion_script x y sync)).
  apply bind_congr; [apply move_absolute_play|]. intros _ h3.
  apply bind_congr; [apply delay_play|]. intros _ h4.
  by rewrite (bind_raise _ _ _ _ _ (global_name_target_id h4)).
Qed.

Lemma press_and_wait {B : Type} detail button_name sync delays (k : M B) h :
  (button_press detail button_name sync ;; delay delays 0 ;; k) h =
  (play (press_script (resolve (button_ids (this h)) detail button_name) sync
         ++ delay_script delays 0) ;; k) h.
Proof.
  rewrite (play_app_bind (press_script _ sync) (delay_script delays 0) k).
  apply bind_congr; [apply button_press_play|]. intros _ h1.
  apply bind_congr; [apply delay_play|done].
Qed.

Lemma drag_relative_play x y detail button_name sync delays h :
  drag_relative x y detail button_name sync delays h =
  (play (script_of h (DragRelative x y detail button_name sync delays)) ;; located) h.
Proof.
  unfold drag_relative, script_of. cbv zeta.
  set (A := press_script (resolve (button_ids (this h)) detail button_name) sync
            ++ delay_script delays 0).
  set (L := answer (after A h)).
  rewrite press_and_wait. fold A.
  rewrite (play_app_bind A _ located), !(play_bind A).
  destruct (refusal A); [done|].
  set (h1 := after A h).
  rewrite (play_app_bind _ [QueryPointer] located).
  change (QueryPointer :: motion_script (L.1 + x) (L.2 + y) sync
          ++ delay_script delays 1 ++ release_script detail sync)
    with ((QueryPointer :: motion_script (L.1 + x) (L.2 + y) sync)
          ++ delay_script delays 1 ++ release_script detail sync).
  rewrite (play_app_bind (QueryPointer :: motion_script (L.1 + x) (L.2 + y) sync) _
             (play [QueryPointer] ;; located)).
  rewrite <- (located_dropped (QueryPointer :: motion_script (L.1 + x) (L.2 + y) sync)).
  apply bind_congr; [apply move_relative_play|]. intros _ h2.
  rewrite (play_app_bind (delay_script delays 1) _ (play [QueryPointer] ;; located)).
  apply bind_congr; [apply delay_play|]. intros _ h3.
  apply bind_congr; [apply button_release_play|]. intros _ h4.
  apply location_play.
Qed.

Lemma clicks_zero id : clicks id 0 = [].
Proof. done. Qed.

(** One axis of [scroll]: [positive] is clicked for a positive amount and
    [negative] for a negative one, as many times as the amount is large. *)
Lemma scroll_axis_play positive negative v h :
  (if 0 <? v then button_click positive None v true click_delays
   else if v <? 0 then button_click negative None (Z.abs v) true click_delays
   else mret tt) h =
  play (clicks (if 0 <? v then positive else negative) (Z.abs v)) h.
Proof.
  destruct (Z.ltb_spec 0 v) as [Hpos|Hpos].
  - rewrite button_click_play; simpl resolve. by rewrite (Z.abs_eq v) by lia.
  - destruct (Z.ltb_spec v 0) as [Hneg|Hneg].
    + by rewrite button_click_play.
    + assert (v = 0) as -> by lia. by rewrite clicks_zero.
Qed.

Lemma scroll_play x y h :
  scroll x y h = play (scroll_script (button_ids (this h)) x y) h.
Proof.
  unfold scroll, scroll_script, vertical_button, horizontal_button.
  rewrite play_app, bind_at. cbn [attr fst snd].
  apply bind_congr; [apply scroll_axis_play|]. intros _ h1.
  apply scroll_axis_play.
Qed.

(** Every call is its script, carried out as far as it goes, and then its
    ending. *)
Lemma perform_script h c : perform h c = after (sent (script_of h c)) h.
Proof.
  assert (∀ B l (k : M B), (∀ h', (k h').2 = h') →
            ((play l ;; k) h).2 = after (sent l) h) as Hend.
  { intros B l k Hk. rewrite play_bind. destruct (refusal l) eqn:E; [done|].
    by rewrite Hk, (refusal_none l E). }
  destruct c; unfold perform, script_of.
  - by rewrite location_run.
  - by rewrite button_press_play, play_run.
  - by rewrite button_release_play, play_run.
  - by rewrite button_click_play, play_run.
  - by rewrite move_absolute_play, Hend.
  - by rewrite move_relative_play, Hend.
  - by rewrite drag_absolute_play, Hend.
  - by rewrite drag_relative_play, Hend.
  - by rewrite scroll_play, play_run.
Qed.

Lemma issued_perform h c : issued h (perform h c) = sent (script_of h c).
Proof. by rewrite perform_script, issued_after. Qed.

Lemma failure_script h c :
  failure h c =
  match refusal (script_of h c) with
  | Some e => Some e
  | None => match c with
            | DragAbsolute _ _ _ _ _ _ => Some (NameError "_target_id")
            | _ => None
            end
  end.
Proof.
  assert (∀ B l (k : M B) o, (∀ h', raised (k h') = o) →
            raised ((play l ;; k) h) = match refusal l with
                                       | Some e => Some e
                                       | None => o
                                       end) as Hend.
  { intros B l k o Hk. rewrite play_bind. by destruct (refusal l). }
  destruct c; unfold failure, script_of.
  - by rewrite location_run.
  - rewrite button_press_play, play_run. unfold raised. cbn [fst].
    by destruct (refusal _).
  - rewrite button_release_play, play_run. unfold raised. cbn [fst].
    by destruct (refusal _).
  - rewrite button_click_play, play_run. unfold raised. cbn [fst].
    by destruct (refusal _).
  - by rewrite move_absolute_play, (Hend _ _ _ None).
  - by rewrite move_relative_play, (Hend _ _ _ None).
  - by rewrite drag_absolute_play, (Hend _ _ _ (Some (NameError "_target_id"))).
  - by rewrite drag_relative_play, (Hend _ _ _ None).
  - rewrite scroll_play, play_run. unfold raised. cbn [fst].
    by destruct (refusal _).
Qed.

Lemma this_perform h c : this (perform h c) = this h.
Proof. by rewrite perform_script. Qed.

Lemma this_perform_all calls h : this (perform_all calls h) = this h.
Proof.
  unfold perform_all. revert h.
  induction calls as [|c calls IH]; intros h; simpl; [done|].
  by rewrite IH, this_perform.
Qed.
End Compound.

(** * Reading traces *)

Section Traces.
Implicit Types (h : Heap) (c : call) (l : list action).

Lemma button_events_app l1 l2 :
  button_events (l1 ++ l2) = button_events l1 ++ button_events l2.
Proof.
  induction l1 as [|[[] d x y| | |] l1 IH]; simpl; by rewrite ?IH.
Qed.

Lemma motions_app l1 l2 : motions (l1 ++ l2) = motions l1 ++ motions l2.
Proof.
  induction l1 as [|[[] d x y| | |] l1 IH]; simpl; by rewrite ?IH.
Qed.

Lemma button_events_sync sync : button_events (sync_script sync) = [].
Proof. by destruct sync. Qed.

Lemma button_events_delay delays k : button_events (delay_script delays k) = [].
Proof.
  unfold delay_script. destruct (delays !! k) as [d|]; [|done].
  by destruct (Qpositive d).
Qed.

Lemma button_events_press id sync :
  button_events (press_script id sync) = [(ButtonPress, id)].
Proof. simpl. by rewrite button_events_sync. Qed.

Lemma button_events_release id sync :
  button_events (release_script id sync) = [(ButtonRelease, id)].
Proof. simpl. by rewrite button_events_sync. Qed.

Lemma button_events_motion x y sync : button_events (motion_script x y sync) = [].
Proof. simpl. by rewrite button_events_app, button_events_sync. Qed.

Lemma button_events_click pressed released sync delays :
  button_events (click_script pressed released sync delays) =
  [(ButtonPress, pressed); (ButtonRelease, released)].
Proof.
  unfold click_script.
  by rewrite !button_events_app, button_events_press, button_events_delay,
    button_events_release.
Qed.

Lemma button_events_rounds n l :
  button_events (concat (replicate n l)) = concat (replicate n (button_events l)).
Proof.
  induction n as [|n IH]; simpl; [done|].
  by rewrite button_events_app, IH.
Qed.

Lemma motions_sync sync : motions (sync_script sync) = [].
Proof. by destruct sync. Qed.

Lemma motions_delay delays k : motions (delay_script delays k) = [].
Proof.
  unfold delay_script. destruct (delays !! k) as [d|]; [|done].
  by destruct (Qpositive d).
Qed.

Lemma motions_press id sync : motions (press_script id sync) = [].
Proof. simpl. apply motions_sync. Qed.

Lemma motions_release id sync : motions (release_script id sync) = [].
Proof. simpl. apply motions_sync. Qed.

Lemma motions_motion x y sync : motions (motion_script x y sync) = [(x, y)].
Proof. simpl. by rewrite motions_app, motions_sync. Qed.

Lemma alternation_has_no_adjacent_press n pressed released :
  no_adjacent_press
    (concat (replicate n [(ButtonPress, pressed); (ButtonRelease, released)])) = true.
Proof. induction n as [|n IH]; simpl; [done|]. by destruct n. Qed.

Lemma kinds_of_alternation n (pressed released : Z) :
  (concat (replicate n [(ButtonPress, pressed); (ButtonRelease, released)])).*1 =
  concat (replicate n [ButtonPress; ButtonRelease]).
Proof.
  induction n as [|n IH]; [done|].
  cbn [replicate concat]. by rewrite fmap_app, IH.
Qed.

(** The beginning of a trace without adjacent presses has none either. *)
Lemma no_adjacent_press_prefix (p q : list (event_type * Z)) :
  no_adjacent_press (p ++ q) = true → no_adjacent_press p = true.
Proof.
  induction p as [|[t d] p IH]; [done|].
  destruct p as [|[t' d'] p]; [by destruct t|].
  destruct t, t'; simpl in *; auto; discriminate.
Qed.

(** ** What can be carried out *)

Lemma forallb_rounds (f : action → bool) n l :
  forallb f l = true → forallb f (concat (replicate n l)) = true.
Proof.
  intros Hl. induction n as [|n IH]; simpl; [done|].
  by rewrite forallb_app, Hl, IH.
Qed.

Lemma forallb_delay (f : action → bool) delays k :
  (∀ d, f (Sleep d) = true) → forallb f (delay_script delays k) = true.
Proof.
  intros Hf. unfold delay_script. destruct (delays !! k) as [d|]; [|done].
  destruct (Qpositive d); simpl; [|done]. by rewrite Hf.
Qed.

Lemma sendable_sync sync : forallb sendable (sync_script sync) = true.
Proof. by destruct sync. Qed.

Lemma sendable_delay delays k :
  sleepable delays k = true → forallb sendable (delay_script delays k) = true.
Proof.
  unfold sleepable, delay_script. destruct (delays !! k) as [d|]; [|done].
  intros Hd. destruct (Qpositive d); simpl; [|done]. by rewrite Hd.
Qed.

Lemma sendable_press id sync :
  card8 id = true → forallb sendable (press_script id sync) = true.
Proof. intros Hid. simpl. by rewrite Hid, sendable_sync. Qed.

Lemma sendable_release id sync :
  card8 id = true → forallb sendable (release_script id sync) = true.
Proof. intros Hid. simpl. by rewrite Hid, sendable_sync. Qed.

Lemma sendable_motion x y sync :
  int16 x = true → int16 y = true → forallb sendable (motion_script x y sync) = true.
Proof. intros Hx Hy. simpl. by rewrite Hx, Hy, forallb_app, sendable_sync. Qed.

Lemma sendable_click pressed released sync delays :
  card8 pressed = true → card8 released = true → sleepable delays 0 = true →
  forallb sendable (click_script pressed released sync delays) = true.
Proof.
  intros Hp Hr Hd. unfold click_script.
  by rewrite !forallb_app, sendable_press, sendable_delay, sendable_release.
Qed.

Lemma sendable_clicks id n :
  card8 id = true → forallb sendable (clicks id n) = true.
Proof. intros Hid. by apply forallb_rounds, sendable_click. Qed.

(** A script that can be carried out is carried out: the method returns or
    goes on, and the server has seen all of it. *)
Lemma play_all {B : Type} l (k : M B) h :
  forallb sendable l = true → (play l ;; k) h = k (after l h).
Proof.
  intros Hl. rewrite play_bind. by destruct (sendable_all l Hl) as [_ ->].
Qed.

Lemma play_all_run l h :
  forallb sendable l = true → play l h = (Returned tt, after l h).
Proof.
  intros Hl. rewrite play_run. by destruct (sendable_all l Hl) as [-> ->].
Qed.

(** ** What the beginning of a script inherits *)

Lemma motions_sent_nil l : motions l = [] → motions (sent l) = [].
Proof.
  destruct (sent_prefix l) as [rest E]. rewrite E at 1. rewrite motions_app.
  by intros [? _]%app_eq_nil.
Qed.

Lemma button_events_sent_nil l : button_events l = [] → button_events (sent l) = [].
Proof.
  destruct (sent_prefix l) as [rest E]. rewrite E at 1. rewrite button_events_app.
  by intros [? _]%app_eq_nil.
Qed.

Lemma motions_sent_length l :
  (length (motions (sent l)) ≤ length (motions l))%nat.
Proof.
  destruct (sent_prefix l) as [rest E]. rewrite E at 2.
  rewrite motions_app, length_app. lia.
Qed.

Lemma no_adjacent_press_sent l :
  no_adjacent_press (button_events l) = true →
  no_adjacent_press (button_events (sent l)) = true.
Proof.
  destruct (sent_prefix l) as [rest E]. rewrite E at 1. rewrite button_events_app.
  apply no_adjacent_press_prefix.
Qed.

Lemma sleeps_positive_sent l : sleeps_positive l → sleeps_positive (sent l).
Proof.
  destruct (sent_prefix l) as [rest E]. rewrite E at 1.
  unfold sleeps_positive. rewrite Forall_app. by intros [? _].
Qed.

Lemma each_input_synced_sent l :
  each_input_synced l = true → each_input_synced (sent l) = true.
Proof.
  induction l as [|a l IH]; [done|].
  destruct a as [t d x y| | |q]; cbn [sent sendable each_input_synced].
  - destruct l as [|[] l]; try discriminate. intros Hl.
    destruct (card8 d && int16 x && int16 y); [|done].
    cbn [sent sendable each_input_synced] in *. auto.
  - auto.
  - auto.
  - intros Hl. destruct (Qle_bool q sleep_limit); [|done].
    cbn [each_input_synced]. auto.
Qed.

(** ** Where the pointer is *)

Lemma place_intrude s p : place (intrude s) p = place s p.
Proof. unfold place. by destruct (screen_intrude s) as [-> ->]. Qed.

(** The answer of a query fits the protocol. *)
Lemma answer_int16 h : int16 (answer h).1 = true ∧ int16 (answer h).2 = true.
Proof. unfold answer, serve; simpl. apply place_int16. Qed.

(** Without other clients a query answers the pointer's position. *)
Lemma answer_undisturbed h :
  undisturbed (server h) = true →
  on_screen (server h) (pointer (server h)).1 (pointer (server h)).2 →
  answer h = pointer (server h).
Proof. intros Hs Hp. by apply pointer_serve_still. Qed.

Lemma answer_after_motion x y sync h :
  undisturbed (server h) = true → on_screen (server h) x y →
  answer (after (FakeInput MotionNotify 0 x y :: sync_script sync) h) = (x, y).
Proof.
  intros Hs Hxy. unfold answer, after. cbn [server].
  rewrite serve_query_last.
  apply (pointer_serves_motion [] (sync_script sync ++ [QueryPointer])); try done.
  by rewrite forallb_app, still_sync_script.
Qed.

(** Where an undisturbed relative move lands. *)
Lemma move_relative_lands x y sync h :
  undisturbed (server h) = true →
  on_screen (server h) ((answer h).1 + x) ((answer h).2 + y) →
  (move_relative x y sync h).1 = Returned [(answer h).1 + x; (answer h).2 + y] ∧
  pointer (server (move_relative x y sync h).2) =
    ((answer h).1 + x, (answer h).2 + y) ∧
  undisturbed (server (move_relative x y sync h).2) = true ∧
  screen_width (server (move_relative x y sync h).2) = screen_width (server h) ∧
  screen_height (server (move_relative x y sync h).2) = screen_height (server h).
Proof.
  intros Hs Hxy. rewrite move_relative_play.
  destruct (on_screen_int16 _ _ _ Hxy) as [Hx Hy].
  rewrite play_all by (by apply (sendable_motion _ _ sync)).
  unfold located, after. cbn [fst snd server].
  assert (pointer (serves (QueryPointer
             :: motion_script ((answer h).1 + x) ((answer h).2 + y) sync) (server h)) =
          ((answer h).1 + x, (answer h).2 + y)) as ->.
  { apply (pointer_serves_motion [QueryPointer] (sync_script sync ++ [QueryPointer]));
      try done.
    by rewrite forallb_app, still_sync_script. }
  repeat split; [by apply undisturbed_serves | apply screen_serves..].
Qed.
End Traces.

#[global] Hint Rewrite motions_app motions_sync motions_delay motions_press
  motions_release motions_motion : motions.

Lemma fresh_is_constructed :
  session None PyNone (idle_server 1920 1080 (100, 100)) = Some fresh.
Proof. reflexivity. Qed.

(** * The model at work *)

(** A target off the screen is sent as it is and the server clamps it. *)
Example move_absolute_off_screen :
  motions (issued fresh (move_absolute 5000 (-3) true fresh).2) = [(5000, -3)] ∧
  (move_absolute 5000 (-3) true fresh).1 = Returned [1919; 0].
Proof. by vm_compute. Qed.

(** The read and the move of [move_relative] are two round trips.  When
    another client moves the pointer to (7, 7) between them, the motion
    still goes to the location that was read plus the offsets. *)
Example move_relative_is_not_atomic :
  let h := mkHeap (this fresh)
             (mkXServer (λ _, true) 1920 1080 (100, 100) [] [None; Some (7, 7)]) in
  motions (issued h (move_relative 5 0 true h).2) = [(105, 100)] ∧
  (move_relative 5 0 true h).1 = Returned [105; 100].
Proof. by vm_compute. Qed.

(** A drag relative to the pointer presses, moves and releases, and the
    release carries [detail] whatever the name says. *)
Example drag_relative_by_name :
  let r := drag_relative 5 (-10) 1 (Some "button_middle") true drag_delays fresh in
  r.1 = Returned [105; 90] ∧
  button_events (issued fresh r.2) = [(ButtonPress, 2); (ButtonRelease, 1)] ∧
  motions (issued fresh r.2) = [(105, 90)].
Proof. by vm_compute. Qed.

(** A button id that does not fit a byte is refused by the binding before
    anything is sent. *)
Example button_press_refused :
  button_press 256 None true fresh = (Raised StructError, fresh).
Proof. by vm_compute. Qed.

(** * The operations *)

(** C1.  [drag_absolute(x = 10, y = 20, detail = 1)] on a fresh object does
    not perform press, move, release: it presses button 1, moves to
    (10, 20), and then raises [NameError] for [_target_id] before any
    release is sent.  The button stays pressed. *)
Theorem drag_absolute_raises_before_release :
  let r := drag_absolute 10 20 1 None true drag_delays fresh in
  r.1 = Raised (NameError "_target_id") ∧
  issued fresh r.2 =
    [FakeInput ButtonPress 1 0 0; Sync; Sleep (1 # 100);
     FakeInput MotionNotify 0 10 20; Sync; QueryPointer; Sleep (1 # 100)] ∧
  button_events (issued fresh r.2) = [(ButtonPress, 1)].
Proof. by vm_compute. Qed.

(** C2, as the code has it.  [scroll] clicks a button as many times as the
    absolute value of each amount, the vertical axis first: [scroll_up] for
    a positive [y] and [scroll_down] for a negative one, [scroll_left] for a
    positive [x] and [scroll_right] for a negative one, and nothing for a
    zero amount, when the ids the table gives for the buttons it clicks fit
    a byte.  With the default table [scroll(x = 0, y = 5)] is five clicks
    of button 4 ([scroll_up]) and [scroll(x = -3, y = 0)] three clicks of
    button 7 ([scroll_right]). *)
Theorem scroll_clicks_by_sign :
  (∀ x y h,
     let ids := button_ids (this h) in
     let r := scroll x y h in
     (y ≠ 0 → card8 (vertical_button ids y) = true) →
     (x ≠ 0 → card8 (horizontal_button ids x) = true) →
     r.1 = Returned tt ∧
     issued h r.2 = clicks (vertical_button ids y) (Z.abs y)
                    ++ clicks (horizontal_button ids x) (Z.abs x) ∧
     button_events (issued h r.2) =
       concat (replicate (Z.to_nat (Z.abs y))
                 [(ButtonPress, vertical_button ids y);
                  (ButtonRelease, vertical_button ids y)])
       ++ concat (replicate (Z.to_nat (Z.abs x))
                    [(ButtonPress, horizontal_button ids x);
                     (ButtonRelease, horizontal_button ids x)])) ∧
  (∀ h, button_ids (this h) = default_button_ids →
     button_events (issued h (scroll 0 5 h).2) =
       concat (replicate 5 [(ButtonPress, 4); (ButtonRelease, 4)]) ∧
     button_events (issued h (scroll (-3) 0 h).2) =
       concat (replicate 3 [(ButtonPress, 7); (ButtonRelease, 7)])).
Proof.
  split.
  - intros x y h ids r Hy Hx. unfold r. rewrite scroll_play.
    assert (∀ id v, (v ≠ 0 → card8 id = true) →
              forallb sendable (clicks id (Z.abs v)) = true) as Hclicks.
    { intros id v Hid. destruct (decide (v = 0)) as [->|Hv]; [done|].
      by apply sendable_clicks, Hid. }
    rewrite play_all_run
      by (unfold scroll_script; rewrite forallb_app; fold ids;
          by rewrite (Hclicks _ y Hy), (Hclicks _ x Hx)).
    cbn [fst snd]. rewrite issued_after. repeat split.
    unfold scroll_script, clicks.
    by rewrite button_events_app, !button_events_rounds, !button_events_click.
  - intros h Hids. rewrite !scroll_play, !play_run. cbn [snd].
    rewrite !issued_after, Hids. by vm_compute.
Qed.

Lemma scroll_clicks_by_sign_witness :
  (card8 (vertical_button (button_ids (this fresh)) 5) = true ∧
   card8 (horizontal_button (button_ids (this fresh)) (-3)) = true ∧
   (scroll (-3) 5 fresh).1 = Returned tt) ∧
  button_ids (this fresh) = default_button_ids ∧
  button_events (issued fresh (scroll 0 5 fresh).2) =
    concat (replicate 5 [(ButtonPress, 4); (ButtonRelease, 4)]) ∧
  button_events (issued fresh (scroll (-3) 0 fresh).2) =
    concat (replicate 3 [(ButtonPress, 7); (ButtonRelease, 7)]).
Proof.
  split.
  - split; [reflexivity|]. split; [reflexivity|].
    apply (proj1 scroll_clicks_by_sign (-3) 5 fresh); reflexivity.
  - split; [reflexivity|].
    apply (proj2 scroll_clicks_by_sign fresh). reflexivity.
Defined.

(** C2 as stated fails: on a fresh object [scroll(x = 0, y = 5)] does not
    click [scroll_down] (button 5) five times.  It never touches that
    button; the five clicks go to [scroll_up] (button 4). *)
Lemma scroll_positive_y_clicks_scroll_up :
  button_ids (this fresh) !! "scroll_down" = Some 5 ∧
  button_ids (this fresh) !! "scroll_up" = Some 4 ∧
  count_button ButtonPress 5 (issued fresh (scroll 0 5 fresh).2) ≠ 5%nat ∧
  count_button ButtonPress 5 (issued fresh (scroll 0 5 fresh).2) = 0%nat ∧
  count_button ButtonPress 4 (issued fresh (scroll 0 5 fresh).2) = 5%nat.
Proof. by vm_compute. Qed.

(** C3.  [button_release(button_name = 'button_right')] on a fresh object
    sends a release of button 1, the default of [detail], and not of
    button 3, which the table maps the name to and which [button_press]
    sends for the same arguments. *)
Theorem button_release_ignores_the_name :
  button_ids (this fresh) !! "button_right" = Some 3 ∧
  issued fresh (button_press 1 (Some "button_right") true fresh).2 =
    [FakeInput ButtonPress 3 0 0; Sync] ∧
  issued fresh (button_release 1 (Some "button_right") true fresh).2 =
    [FakeInput ButtonRelease 1 0 0; Sync].
Proof. by vm_compute. Qed.

(** C4.  [button_click] with [times = N] never sends two presses in a row.
    When the button ids it sends fit a byte and the delay is one the clock
    takes, it returns after exactly [N] rounds of press, optional sleep,
    release, one round after the other: the button events are [N]
    press/release pairs in alternation. *)
Theorem button_click_alternates detail button_name (N : nat) sync delays h :
  let pressed := resolve (button_ids (this h)) detail button_name in
  let r := button_click detail button_name (Z.of_nat N) sync delays h in
  no_adjacent_press (button_events (issued h r.2)) = true ∧
  (card8 pressed = true → card8 detail = true → sleepable delays 0 = true →
   r.1 = Returned tt ∧
   issued h r.2 =
     concat (replicate N (press_script pressed sync
                          ++ delay_script delays 0
                          ++ release_script detail sync)) ∧
   button_events (issued h r.2) =
     concat (replicate N [(ButtonPress, pressed); (ButtonRelease, detail)]) ∧
   (button_events (issued h r.2)).*1 =
     concat (replicate N [ButtonPress; ButtonRelease])).
Proof.
  intros pressed r. unfold r. rewrite button_click_play.
  unfold range. rewrite Nat2Z.id. fold pressed. split.
  - rewrite play_run. cbn [snd]. rewrite issued_after.
    apply no_adjacent_press_sent.
    rewrite button_events_rounds, button_events_click.
    apply alternation_has_no_adjacent_press.
  - intros Hp Hd Hs.
    rewrite play_all_run by by apply forallb_rounds, sendable_click.
    cbn [fst snd]. rewrite issued_after.
    fold (click_script pressed detail sync delays).
    rewrite button_events_rounds, button_events_click.
    repeat split. apply kinds_of_alternation.
Qed.

Lemma button_click_alternates_witness :
  card8 (resolve (button_ids (this fresh)) 1 (Some "button_middle")) = true ∧
  card8 1 = true ∧ sleepable click_delays 0 = true ∧
  (button_click 1 (Some "button_middle") (Z.of_nat 2) true click_delays fresh).1 =
    Returned tt ∧
  button_events
    (issued fresh
       (button_click 1 (Some "button_middle") (Z.of_nat 2) true click_delays fresh).2) =
    [(ButtonPress, 2); (ButtonRelease, 1); (ButtonPress, 2); (ButtonRelease, 1)].
Proof.
  split; [reflexivity|]. split; [reflexivity|]. split; [reflexivity|].
  destruct (proj2 (button_click_alternates 1 (Some "button_middle") 2 true
                     click_delays fresh))
    as (Hret & _ & Hevents & _); [reflexivity..|].
  split; [exact Hret | exact Hevents].
Defined.

(** C5.  Constructing with a [button_ids] that is not a mapping gives what
    constructing with no [button_ids] gives: when the server accepts the
    connection, an object whose table is the default one, whose seven
    entries are [button_left = 1], [button_middle = 2], [button_right = 3],
    [scroll_up = 4], [scroll_down = 5], [scroll_left = 6] and
    [scroll_right = 7]. *)
Theorem non_mapping_table_is_default display v s :
  is_mapping v = false →
  __init__ display v s = __init__ display PyNone s ∧
  (accepts s display = true →
   ∃ self, __init__ display v s = Returned self ∧
           __init__ display PyNone s = Returned self ∧
           button_ids self = default_button_ids) ∧
  (∀ self, __init__ display v s = Returned self →
           button_ids self = default_button_ids) ∧
  size default_button_ids = 7%nat ∧
  default_button_ids =
    list_to_map [("button_left", 1); ("button_middle", 2); ("button_right", 3);
                 ("scroll_up", 4); ("scroll_down", 5); ("scroll_left", 6);
                 ("scroll_right", 7)]%string.
Proof.
  intros Hv. repeat split.
  - unfold __init__. destruct v; try done.
  - intros Haccepts. unfold __init__, connect. rewrite Haccepts.
    eexists. by destruct v.
  - intros self. unfold __init__. destruct (connect display s); [|done].
    intros [= <-]. by destruct v.
Qed.

Lemma non_mapping_table_is_default_witness :
  is_mapping (PyList [1; 2; 3]) = false ∧
  accepts (idle_server 1920 1080 (0, 0)) (Some ":0"%string) = true ∧
  ∃ self,
    __init__ (Some ":0"%string) (PyList [1; 2; 3]) (idle_server 1920 1080 (0, 0)) =
      Returned self ∧
    __init__ (Some ":0"%string) PyNone (idle_server 1920 1080 (0, 0)) =
      Returned self ∧
    button_ids self = default_button_ids.
Proof.
  split; [reflexivity|]. split; [reflexivity|].
  apply (non_mapping_table_is_default (Some ":0"%string) (PyList [1; 2; 3])
           (idle_server 1920 1080 (0, 0))); reflexivity.
Defined.

(** C6.  [move_relative(x, y)] queries the location [L], and is from there
    on [move_absolute] to [L + (x, y)]: when the binding can pack that
    target it sends that one motion and queries again.  When no other
    client moves the pointer and [L + (x, y)] is on the screen, it returns
    [L + (x, y)], and [L] is where the pointer was. *)
Theorem move_relative_adds_offsets x y sync h :
  let L := answer h in
  let r := move_relative x y sync h in
  r = move_absolute (L.1 + x) (L.2 + y) sync (after [QueryPointer] h) ∧
  (int16 (L.1 + x) = true → int16 (L.2 + y) = true →
   issued h r.2 = QueryPointer :: motion_script (L.1 + x) (L.2 + y) sync) ∧
  (undisturbed (server h) = true → on_screen (server h) (L.1 + x) (L.2 + y) →
   r.1 = Returned [L.1 + x; L.2 + y]) ∧
  (undisturbed (server h) = true →
   on_screen (server h) (pointer (server h)).1 (pointer (server h)).2 →
   L = pointer (server h)).
Proof.
  intros L r. unfold r, L. split; [apply move_relative_run|]. split; [|split].
  - intros Hx Hy. rewrite move_relative_play.
    rewrite play_all by (by apply (sendable_motion _ _ sync)).
    unfold located. cbn [snd]. by rewrite issued_after.
  - intros Hs Hxy. by apply move_relative_lands.
  - apply answer_undisturbed.
Qed.

Lemma move_relative_adds_offsets_witness :
  int16 (100 + 5) = true ∧ int16 (100 + -10) = true ∧
  undisturbed (server fresh) = true ∧
  on_screen (server fresh) (100 + 5) (100 + -10) ∧
  on_screen (server fresh) 100 100 ∧
  issued fresh (move_relative 5 (-10) true fresh).2 =
    [QueryPointer; FakeInput MotionNotify 0 105 90; Sync; QueryPointer] ∧
  (move_relative 5 (-10) true fresh).1 = Returned [105; 90] ∧
  answer fresh = (100, 100).
Proof.
  split; [reflexivity|]. split; [reflexivity|]. split; [reflexivity|].
  split; [unfold on_screen; vm_compute; intuition discriminate|]. split; [unfold on_screen; vm_compute; intuition discriminate|].
  destruct (move_relative_adds_offsets 5 (-10) true fresh) as (_ & Htrace & Hret & HL).
  split; [apply Htrace; reflexivity|].
  split; [apply Hret; [reflexivity | unfold on_screen; vm_compute; intuition discriminate]|].
  apply HL; [reflexivity | unfold on_screen; vm_compute; intuition discriminate].
Defined.

(** C7.  [move_absolute(x, y)], for coordinates the binding can pack, sends
    one motion event to [(x, y)], syncs when asked to, queries the pointer
    and returns the answer of that query.  When no other client moves the
    pointer and [(x, y)] is on the screen, that answer is [(x, y)], and so
    is the [location] read right after the call. *)
Theorem move_absolute_reaches_target x y sync h :
  let r := move_absolute x y sync h in
  (int16 x = true → int16 y = true →
   issued h r.2 = FakeInput MotionNotify 0 x y :: sync_script sync ++ [QueryPointer] ∧
   r.1 = Returned [(pointer (server r.2)).1; (pointer (server r.2)).2]) ∧
  (undisturbed (server h) = true → on_screen (server h) x y →
   r.1 = Returned [x; y] ∧ (location r.2).1 = Returned [x; y]).
Proof.
  intros r. unfold r. rewrite move_absolute_play. split.
  - intros Hx Hy. rewrite play_all by by apply sendable_motion.
    unfold located. cbn [fst snd]. by rewrite issued_after.
  - intros Hs Hxy. destruct (on_screen_int16 _ _ _ Hxy) as [Hx Hy].
    rewrite play_all by by apply sendable_motion.
    unfold located. cbn [fst snd].
    assert (pointer (server (after (motion_script x y sync) h)) = (x, y)) as E.
    { unfold after. cbn [server].
      apply (pointer_serves_motion [] (sync_script sync ++ [QueryPointer])); try done.
      by rewrite forallb_app, still_sync_script. }
    rewrite E. split; [done|].
    rewrite location_run. cbn [fst].
    rewrite answer_undisturbed; [by rewrite E | by apply undisturbed_serves |].
    rewrite E. by apply on_screen_serves.
Qed.

Lemma move_absolute_reaches_target_witness :
  int16 640 = true ∧ int16 480 = true ∧
  undisturbed (server fresh) = true ∧
  on_screen (server fresh) 640 480 ∧
  issued fresh (move_absolute 640 480 true fresh).2 =
    [FakeInput MotionNotify 0 640 480; Sync; QueryPointer] ∧
  (move_absolute 640 480 true fresh).1 = Returned [640; 480] ∧
  (location (move_absolute 640 480 true fresh).2).1 = Returned [640; 480].
Proof.
  split; [reflexivity|]. split; [reflexivity|]. split; [reflexivity|].
  split; [unfold on_screen; vm_compute; intuition discriminate|].
  destruct (move_absolute_reaches_target 640 480 true fresh) as [Htrace Hret].
  split; [apply Htrace; reflexivity|].
  apply Hret; [reflexivity | unfold on_screen; vm_compute; intuition discriminate].
Defined.




(** C9.  No operation writes an attribute: after any sequence of calls,
    returning or raising, the connection handle, the button table and the
    two constraints records are the ones the object was given. *)
Theorem operations_keep_the_object self s calls :
  let h' := perform_all calls (mkHeap self s) in
  this h' = self ∧
  display (this h') = display self ∧
  button_ids (this h') = button_ids self ∧
  relative_constraints (this h') = relative_constraints self ∧
  absolute_constraints (this h') = absolute_constraints self.
Proof.
  intros h'. assert (this h' = self) as ->; [|done].
  apply (this_perform_all calls (mkHeap self s)).
Qed.

(** C10.  [move_relative] with both offsets zero is not skipped: it queries
    the location [L], sends a motion event to [L] itself, syncs when asked
    to, queries again and returns the answer of that second query. *)
Theorem move_relative_zero_still_moves sync h :
  let L := answer h in
  let r := move_relative 0 0 sync h in
  issued h r.2 =
    [QueryPointer; FakeInput MotionNotify 0 L.1 L.2]
    ++ sync_script sync ++ [QueryPointer] ∧
  motions (issued h r.2) = [(L.1, L.2)] ∧
  r.1 = Returned [(pointer (server r.2)).1; (pointer (server r.2)).2].
Proof.
  intros L r. unfold r. rewrite move_relative_play.
  rewrite !Z.add_0_r. fold L.
  destruct (answer_int16 h) as [Hx Hy]. fold L in Hx, Hy.
  rewrite play_all by (by apply (sendable_motion _ _ sync)).
  unfold located. cbn [fst snd]. rewrite issued_after. repeat split.
  by read_motions.
Qed.

(** * Further properties of the operations *)

Section Syncs.
Implicit Types (h : Heap) (c : call) (l : list action).

Lemma Qpositive_lt d : Qpositive d = true → (0 < d)%Q.
Proof.
  unfold Qpositive. intros H. apply Qnot_le_lt. intros Hle.
  apply Qle_bool_iff in Hle. rewrite Hle in H. discriminate H.
Qed.

Lemma sleeps_positive_app l1 l2 :
  sleeps_positive l1 → sleeps_positive l2 → sleeps_positive (l1 ++ l2).
Proof. apply Forall_app_2. Qed.

Lemma sleeps_positive_sync sync : sleeps_positive (sync_script sync).
Proof. destruct sync; repeat constructor. Qed.

Lemma sleeps_positive_delay delays k : sleeps_positive (delay_script delays k).
Proof.
  unfold delay_script. destruct (delays !! k) as [d|]; [|constructor].
  destruct (Qpositive d) eqn:E; repeat constructor. by apply Qpositive_lt.
Qed.

Lemma sleeps_positive_press id sync : sleeps_positive (press_script id sync).
Proof. constructor; [done|]. apply sleeps_positive_sync. Qed.

Lemma sleeps_positive_release id sync : sleeps_positive (release_script id sync).
Proof. constructor; [done|]. apply sleeps_positive_sync. Qed.

Lemma sleeps_positive_motion x y sync : sleeps_positive (motion_script x y sync).
Proof.
  constructor; [done|]. apply sleeps_positive_app; [apply sleeps_positive_sync|].
  by repeat constructor.
Qed.

Lemma sleeps_positive_click pressed released sync delays :
  sleeps_positive (click_script pressed released sync delays).
Proof.
  unfold click_script.
  auto using sleeps_positive_app, sleeps_positive_press, sleeps_positive_delay,
    sleeps_positive_release.
Qed.

Lemma sleeps_positive_rounds n l :
  sleeps_positive l → sleeps_positive (concat (replicate n l)).
Proof.
  intros Hl. induction n as [|n IH]; simpl; [constructor|].
  by apply sleeps_positive_app.
Qed.

Lemma sleeps_positive_script h c : sleeps_positive (script_of h c).
Proof.
  destruct c; unfold script_of.
  - by repeat constructor.
  - apply sleeps_positive_press.
  - apply sleeps_positive_release.
  - apply sleeps_positive_rounds, sleeps_positive_click.
  - apply sleeps_positive_motion.
  - constructor; [done|]. apply sleeps_positive_motion.
  - auto using sleeps_positive_app, sleeps_positive_press, sleeps_positive_delay,
      sleeps_positive_motion.
  - apply sleeps_positive_app; [|apply sleeps_positive_app].
    + auto using sleeps_positive_app, sleeps_positive_press, sleeps_positive_delay.
    + constructor; [done|].
      apply sleeps_positive_app; [apply sleeps_positive_motion|].
      apply sleeps_positive_app;
        [apply sleeps_positive_delay | apply sleeps_positive_release].
    + by repeat constructor.
  - unfold scroll_script, clicks.
    apply sleeps_positive_app; apply sleeps_positive_rounds, sleeps_positive_click.
Qed.

Lemma each_input_synced_app l1 l2 :
  each_input_synced l1 = true → each_input_synced l2 = true →
  each_input_synced (l1 ++ l2) = true.
Proof.
  intros H1 H2. induction l1 as [|a l1 IH]; [done|].
  destruct a as [t d x y| | |]; simpl in *; auto.
  destruct l1 as [|[] l1]; try discriminate H1. simpl in *. auto.
Qed.

Lemma each_input_synced_delay delays k :
  each_input_synced (delay_script delays k) = true.
Proof.
  unfold delay_script. destruct (delays !! k) as [d|]; [|done].
  by destruct (Qpositive d).
Qed.

Lemma each_input_synced_rounds n l :
  each_input_synced l = true → each_input_synced (concat (replicate n l)) = true.
Proof.
  intros Hl. induction n as [|n IH]; simpl; [done|].
  by apply each_input_synced_app.
Qed.

Lemma each_input_synced_click pressed released delays :
  each_input_synced (click_script pressed released true delays) = true.
Proof.
  unfold click_script.
  repeat apply each_input_synced_app; auto using each_input_synced_delay.
Qed.

Lemma unsynced_click pressed released delays :
  forallb (λ a, negb (is_sync a)) (click_script pressed released false delays) = true.
Proof.
  unfold click_script. rewrite !forallb_app, forallb_delay by done. done.
Qed.

Lemma sync_script_flag h c :
  if sync_of c
  then each_input_synced (script_of h c) = true
  else forallb (λ a, negb (is_sync a)) (script_of h c) = true.
Proof.
  destruct c as [|d n sync|d n sync|d n t sync dl|x y sync|x y sync
                 |x y d n sync dl|x y d n sync dl|x y]; unfold script_of, sync_of;
    try destruct sync; try done.
  - apply each_input_synced_rounds, each_input_synced_click.
  - apply forallb_rounds, unsynced_click.
  - repeat first [ reflexivity | apply each_input_synced_delay
                 | apply each_input_synced_app ].
  - rewrite !forallb_app, !forallb_delay by done. done.
  - repeat first [ reflexivity | apply each_input_synced_delay
                 | apply each_input_synced_app
                 | progress cbn [each_input_synced] ].
  - repeat first [ progress rewrite ?forallb_app, ?forallb_delay by done
                 | progress cbn [forallb is_sync negb andb] ].
    done.
  - unfold scroll_script, clicks.
    apply each_input_synced_app;
      apply each_input_synced_rounds, each_input_synced_click.
Qed.

Lemma motions_click pressed released sync delays :
  motions (click_script pressed released sync delays) = [].
Proof. unfold click_script. by read_motions. Qed.

Lemma motions_rounds n l : motions l = [] → motions (concat (replicate n l)) = [].
Proof.
  intros Hl. induction n as [|n IH]; simpl; [done|].
  by rewrite motions_app, Hl, IH.
Qed.

Lemma unqueried_sync sync :
  forallb (λ a, negb (is_query a)) (sync_script sync) = true.
Proof. by destruct sync. Qed.

Lemma unqueried_click pressed released sync delays :
  forallb (λ a, negb (is_query a)) (click_script pressed released sync delays) = true.
Proof.
  unfold click_script, press_script, release_script.
  rewrite !forallb_app, forallb_delay by done. simpl.
  by rewrite unqueried_sync.
Qed.

Lemma unreleased_sync sync :
  forallb (λ a, negb (is_release a)) (sync_script sync) = true.
Proof. by destruct sync. Qed.
End Syncs.

(** X1.  [drag_absolute] never returns and never sends a release, whatever
    its arguments.  When the binding can pack the button and the target and
    the clock takes the delays, it sends the press of the resolved button,
    the delays and the motion to [(x, y)], and then raises [NameError] for
    [_target_id]: one press and no release. *)
Theorem drag_absolute_always_raises x y detail button_name sync delays h :
  let r := drag_absolute x y detail button_name sync delays h in
  let pressed := resolve (button_ids (this h)) detail button_name in
  (∀ v, r.1 ≠ Returned v) ∧
  forallb (λ a, negb (is_release a)) (issued h r.2) = true ∧
  (card8 pressed = true → int16 x = true → int16 y = true →
   sleepable delays 0 = true → sleepable delays 1 = true →
   r.1 = Raised (NameError "_target_id") ∧
   issued h r.2 =
     press_script pressed sync ++ delay_script delays 0
     ++ motion_script x y sync ++ delay_script delays 1 ∧
   button_events (issued h r.2) = [(ButtonPress, pressed)] ∧
   motions (issued h r.2) = [(x, y)]).
Proof.
  intros r pressed. unfold r. rewrite drag_absolute_play. fold pressed.
  set (l := press_script pressed sync ++ delay_script delays 0
            ++ motion_script x y sync ++ delay_script delays 1).
  split; [|split].
  - intros v. rewrite play_bind. by destruct (refusal l).
  - assert (((play l ;; raise (NameError "_target_id")) h).2 = after (sent l) h) as ->.
    { rewrite play_bind. destruct (refusal l) eqn:E; [done|].
      by rewrite (refusal_none l E). }
    rewrite issued_after. apply forallb_sent. unfold l.
    rewrite !forallb_app, !forallb_delay by done. simpl.
    by rewrite forallb_app, !unreleased_sync.
  - intros Hp Hx Hy Hd0 Hd1.
    rewrite play_all.
    + unfold raise. cbn [fst snd]. rewrite issued_after. unfold l. repeat split.
      * by rewrite !button_events_app, button_events_press, !button_events_delay,
          button_events_motion.
      * by read_motions.
    + unfold l. rewrite !forallb_app.
      by rewrite sendable_press, !sendable_delay, sendable_motion.
Qed.

Lemma drag_absolute_always_raises_witness :
  card8 (resolve (button_ids (this fresh)) 1 (Some "button_right")) = true ∧
  int16 10 = true ∧ int16 20 = true ∧
  sleepable drag_delays 0 = true ∧ sleepable drag_delays 1 = true ∧
  (drag_absolute 10 20 1 (Some "button_right") false drag_delays fresh).1 =
    Raised (NameError "_target_id") ∧
  button_events
    (issued fresh
       (drag_absolute 10 20 1 (Some "button_right") false drag_delays fresh).2) =
    [(ButtonPress, 3)].
Proof.
  do 5 (split; [reflexivity|]).
  destruct (drag_absolute_always_raises 10 20 1 (Some "button_right") false
              drag_delays fresh) as (_ & _ & H).
  destruct H as (Hret & _ & Hevents & _); [reflexivity..|].
  split; [exact Hret | exact Hevents].
Defined.

(** X2.  [button_press] sends the press of [detail] when no name is given.
    When a name is given [detail] is not looked at: the press is of the
    button the table maps the name to, and of button 1 when the table does
    not have the name.  The id has to fit a byte: for one that does not,
    the binding raises and nothing is sent. *)
Theorem button_press_sends_resolved detail sync h :
  (card8 detail = true →
   issued h (button_press detail None sync h).2 =
     FakeInput ButtonPress detail 0 0 :: sync_script sync) ∧
  (∀ name id,
     button_ids (this h) !! name = Some id → card8 id = true →
     issued h (button_press detail (Some name) sync h).2 =
       FakeInput ButtonPress id 0 0 :: sync_script sync) ∧
  (∀ name,
     button_ids (this h) !! name = None →
     issued h (button_press detail (Some name) sync h).2 =
       FakeInput ButtonPress 1 0 0 :: sync_script sync) ∧
  (∀ button_name,
     card8 (resolve (button_ids (this h)) detail button_name) = false →
     button_press detail button_name sync h = (Raised StructError, h)).
Proof.
  split; [|split; [|split]].
  - intros Hd. rewrite button_press_play, play_all_run by by apply sendable_press.
    cbn [snd]. by rewrite issued_after.
  - intros name id Hname Hid. rewrite button_press_play. unfold resolve.
    rewrite Hname. cbn [default from_option].
    rewrite play_all_run by by apply sendable_press.
    cbn [snd]. by rewrite issued_after.
  - intros name Hname. rewrite button_press_play. unfold resolve.
    rewrite Hname. cbn [default from_option].
    rewrite play_all_run by by apply sendable_press.
    cbn [snd]. by rewrite issued_after.
  - intros button_name Hid. rewrite button_press_play, play_run.
    unfold press_script. cbn [sent refusal sendable].
    rewrite Hid. cbn [andb]. by rewrite after_nil.
Qed.

Lemma button_press_sends_resolved_witness :
  (card8 2 = true ∧
   issued fresh (button_press 2 None true fresh).2 = [FakeInput ButtonPress 2 0 0; Sync]) ∧
  (button_ids (this fresh) !! "scroll_left" = Some 6 ∧ card8 6 = true ∧
   issued fresh (button_press 2 (Some "scroll_left") true fresh).2 =
     [FakeInput ButtonPress 6 0 0; Sync]) ∧
  (button_ids (this fresh) !! "thumb" = None ∧
   issued fresh (button_press 2 (Some "thumb") true fresh).2 =
     [FakeInput ButtonPress 1 0 0; Sync]) ∧
  (card8 (resolve (button_ids (this fresh)) 256 None) = false ∧
   button_press 256 None true fresh = (Raised StructError, fresh)).
Proof.
  destruct (button_press_sends_resolved 2 true fresh) as (Hid & Hname & Hmissing & _).
  destruct (button_press_sends_resolved 256 true fresh) as (_ & _ & _ & Hrefused).
  split; [split; [reflexivity | by apply Hid]|].
  split; [split; [reflexivity | split; [reflexivity | by apply Hname]]|].
  split; [split; [reflexivity | by apply Hmissing]|].
  split; [reflexivity | by apply (Hrefused None)].
Defined.

(** X3.  [button_release] sends the release of [detail] whatever name is
    given, and raises with nothing sent when [detail] does not fit a byte.
    So a press and a release by the same name are of the same button only
    when the table maps the name to [detail]. *)
Theorem button_release_sends_detail detail button_name sync h :
  (card8 detail = true →
   issued h (button_release detail button_name sync h).2 =
     FakeInput ButtonRelease detail 0 0 :: sync_script sync) ∧
  (card8 detail = false →
   button_release detail button_name sync h = (Raised StructError, h)) ∧
  (card8 detail = true →
   card8 (resolve (button_ids (this h)) detail button_name) = true →
   button_events
     (issued h ((button_press detail button_name sync ;;
                 button_release detail button_name sync) h).2) =
     [(ButtonPress, resolve (button_ids (this h)) detail button_name);
      (ButtonRelease, detail)]).
Proof.
  split; [|split].
  - intros Hd. rewrite button_release_play, play_all_run by by apply sendable_release.
    cbn [snd]. by rewrite issued_after.
  - intros Hd. rewrite button_release_play, play_run.
    unfold release_script. cbn [sent refusal sendable].
    rewrite Hd. cbn [andb]. by rewrite after_nil.
  - intros Hd Hp.
    rewrite (as_script _ _ _ _ (button_press_play detail button_name sync h)).
    rewrite play_all by by apply sendable_press.
    rewrite button_release_play, play_all_run by by apply sendable_release.
    cbn [snd]. rewrite <- after_app, issued_after.
    by rewrite button_events_app, button_events_press, button_events_release.
Qed.

Lemma button_release_sends_detail_witness :
  card8 1 = true ∧
  card8 (resolve (button_ids (this fresh)) 1 (Some "button_right")) = true ∧
  card8 (-1) = false ∧
  issued fresh (button_release 1 (Some "button_right") true fresh).2 =
    [FakeInput ButtonRelease 1 0 0; Sync] ∧
  button_release (-1) (Some "button_right") true fresh = (Raised StructError, fresh) ∧
  button_events
    (issued fresh ((button_press 1 (Some "button_right") true ;;
                    button_release 1 (Some "button_right") true) fresh).2) =
    [(ButtonPress, 3); (ButtonRelease, 1)].
Proof.
  do 3 (split; [reflexivity|]).
  destruct (button_release_sends_detail 1 (Some "button_right") true fresh)
    as (Hsent & _ & Hpair).
  destruct (button_release_sends_detail (-1) (Some "button_right") true fresh)
    as (_ & Hrefused & _).
  split; [by apply Hsent|]. split; [by apply Hrefused|]. by apply Hpair.
Defined.

(** X4.  A [dict] given as [button_ids] is kept as it is and not completed
    from the default table: a name it does not have, [button_right] say,
    presses button 1. *)
Theorem dict_table_replaces_default display d s self :
  __init__ display (PyDict d) s = Returned self →
  button_ids self = d ∧
  ∀ name detail sync srv,
    d !! name = None →
    issued (mkHeap self srv)
           (button_press detail (Some name) sync (mkHeap self srv)).2 =
    FakeInput ButtonPress 1 0 0 :: sync_script sync.
Proof.
  unfold __init__. destruct (connect display s); [|done].
  intros [= <-]. split; [done|]. intros name detail sync srv Hname.
  rewrite button_press_play. unfold resolve. cbn [this button_ids].
  rewrite Hname. cbn [default from_option].
  rewrite play_all_run by by apply sendable_press.
  cbn [snd]. by rewrite issued_after.
Qed.

Lemma dict_table_replaces_default_witness :
  ∃ self,
    __init__ None (PyDict {[ "left" := 1 ]}) (idle_server 1920 1080 (0, 0)) =
      Returned self ∧
    button_ids self = {[ "left" := 1 ]} ∧
    issued (mkHeap self (idle_server 1920 1080 (0, 0)))
           (button_press 3 (Some "button_right") true
              (mkHeap self (idle_server 1920 1080 (0, 0)))).2 =
    [FakeInput ButtonPress 1 0 0; Sync].
Proof.
  eexists. split; [reflexivity|].
  destruct (dict_table_replaces_default None {[ "left" := 1 ]}
              (idle_server 1920 1080 (0, 0)) _ eq_refl) as [Hids Hpress].
  split; [exact Hids|].
  apply (Hpress "button_right"%string 3 true (idle_server 1920 1080 (0, 0))).
  reflexivity.
Defined.

(** X6.  [button_click] with [times] zero or negative sends nothing, does
    not sleep and returns: the heap is the one it started in. *)
Theorem button_click_nonpositive_times detail button_name times sync delays h :
  times <= 0 →
  button_click detail button_name times sync delays h = (Returned tt, h).
Proof.
  intros Htimes. rewrite button_click_play. unfold range.
  by rewrite Z2Nat.nonpos by done.
Qed.

Lemma button_click_nonpositive_times_witness :
  -2 <= 0 ∧
  button_click 1 (Some "button_left") (-2) true click_delays fresh =
  (Returned tt, fresh).
Proof.
  split; [lia|].
  apply (button_click_nonpositive_times 1 (Some "button_left") (-2) true
           click_delays fresh).
  lia.
Defined.

(** X7.  Clicks add up: clicking [a] times and then [b] times, with the
    same button, [sync] and [delays], is clicking [a + b] times. *)
Theorem button_click_adds_up detail button_name a b sync delays h :
  0 <= a → 0 <= b →
  (button_click detail button_name a sync delays ;;
   button_click detail button_name b sync delays) h =
  button_click detail button_name (a + b) sync delays h.
Proof.
  intros Ha Hb.
  rewrite (as_script _ _ _ _ (button_click_play detail button_name a sync delays h)).
  rewrite (button_click_play _ _ (a + b)). unfold range.
  rewrite Z2Nat.inj_add, replicate_add, concat_app by done.
  rewrite play_app, !play_bind.
  destruct (refusal _); [done|]. by rewrite button_click_play.
Qed.

Lemma button_click_adds_up_witness :
  0 <= 2 ∧ 0 <= 3 ∧
  (button_click 1 None 2 true click_delays ;;
   button_click 1 None 3 true click_delays) fresh =
  button_click 1 None (2 + 3) true click_delays fresh.
Proof.
  split; [lia|]. split; [lia|].
  apply (button_click_adds_up 1 None 2 3 true click_delays fresh); lia.
Defined.

(** X8.  No call sleeps for a time that is not positive: a delay that is
    missing from [delays], zero or negative is skipped, whatever the call
    and its arguments. *)
Theorem sleeps_are_positive h c : sleeps_positive (issued h (perform h c)).
Proof.
  rewrite issued_perform. apply sleeps_positive_sent, sleeps_positive_script.
Qed.

(** X9.  [sync] decides every [display.sync()]: a call with [sync = True]
    (and [scroll], which clicks with the default) syncs directly after each
    event it synthesizes, and a call with [sync = False] never syncs. *)
Theorem sync_follows_the_flag h c :
  if sync_of c
  then each_input_synced (issued h (perform h c)) = true
  else forallb (λ a, negb (is_sync a)) (issued h (perform h c)) = true.
Proof.
  rewrite issued_perform. pose proof (sync_script_flag h c) as H.
  destruct (sync_of c).
  - by apply each_input_synced_sent.
  - by apply forallb_sent.
Qed.

(** X10.  Button calls and pointer calls keep apart.  [button_press],
    [button_release], [button_click] and [scroll] send no motion and never
    query the pointer; [location] synthesizes nothing; [move_absolute] and
    [move_relative] send no button event, and one motion when they return
    and none when they raise; the two drags send at most one motion. *)
Theorem buttons_and_pointer_keep_apart h c :
  match c with
  | PressButton _ _ _ | ReleaseButton _ _ _ | ClickButton _ _ _ _ _ | Scroll _ _ =>
      motions (issued h (perform h c)) = [] ∧
      forallb (λ a, negb (is_query a)) (issued h (perform h c)) = true
  | GetLocation =>
      motions (issued h (perform h c)) = [] ∧
      button_events (issued h (perform h c)) = []
  | MoveAbsolute _ _ _ | MoveRelative _ _ _ =>
      length (motions (issued h (perform h c))) =
        match failure h c with None => 1%nat | Some _ => 0%nat end ∧
      button_events (issued h (perform h c)) = []
  | DragAbsolute _ _ _ _ _ _ | DragRelative _ _ _ _ _ _ =>
      (length (motions (issued h (perform h c))) ≤ 1)%nat
  end.
Proof.
  rewrite issued_perform, failure_script. destruct c; unfold script_of.
  - done.
  - split; [by apply motions_sent_nil; read_motions|].
    apply forallb_sent. simpl. apply unqueried_sync.
  - split; [by apply motions_sent_nil; read_motions|].
    apply forallb_sent. simpl. apply unqueried_sync.
  - split; [apply motions_sent_nil, motions_rounds, motions_click|].
    apply forallb_sent, forallb_rounds, unqueried_click.
  - split; [|apply button_events_sent_nil, button_events_motion].
    unfold motion_script. cbn [sent refusal sendable].
    destruct (card8 0 && int16 x && int16 y); [|done].
    destruct (sendable_all (sync_script sync ++ [QueryPointer])) as [-> ->];
      [by rewrite forallb_app, sendable_sync|].
    by read_motions.
  - split; [|apply button_events_sent_nil;
               exact (button_events_motion ((answer h).1 + x) ((answer h).2 + y) sync)].
    unfold motion_script. cbn [sent refusal sendable].
    destruct (card8 0 && int16 _ && int16 _); [|done].
    destruct (sendable_all (sync_script sync ++ [QueryPointer])) as [-> ->];
      [by rewrite forallb_app, sendable_sync|].
    by read_motions.
  - etransitivity; [apply motions_sent_length|]. by read_motions.
  - etransitivity; [apply motions_sent_length|]. by read_motions.
  - unfold scroll_script, clicks. split.
    + apply motions_sent_nil.
      by rewrite motions_app, !motions_rounds by apply motions_click.
    + apply forallb_sent.
      by rewrite forallb_app, !forallb_rounds by apply unqueried_click.
Qed.

(** X11.  [drag_relative], when the binding can pack the two button ids
    and the target and the clock takes the delays, sends the press of the
    resolved button, queries the location [L], moves to [L] plus [(x, y)],
    releases [detail] and queries again, in this order and with the delays
    in between.  When no other client moves the pointer and the target is on
    the screen, it returns [L] plus [(x, y)], and [L] is where the pointer
    was. *)
Theorem drag_relative_moves_while_pressed x y detail button_name sync delays h :
  let r := drag_relative x y detail button_name sync delays h in
  let pressed := resolve (button_ids (this h)) detail button_name in
  let L := answer (after (press_script pressed sync ++ delay_script delays 0) h) in
  card8 pressed = true → card8 detail = true →
  sleepable delays 0 = true → sleepable delays 1 = true →
  (int16 (L.1 + x) = true → int16 (L.2 + y) = true →
   issued h r.2 =
     (press_script pressed sync ++ delay_script delays 0)
     ++ (QueryPointer :: motion_script (L.1 + x) (L.2 + y) sync
         ++ delay_script delays 1 ++ release_script detail sync)
     ++ [QueryPointer] ∧
   button_events (issued h r.2) = [(ButtonPress, pressed); (ButtonRelease, detail)] ∧
   motions (issued h r.2) = [(L.1 + x, L.2 + y)]) ∧
  (undisturbed (server h) = true → on_screen (server h) (L.1 + x) (L.2 + y) →
   r.1 = Returned [L.1 + x; L.2 + y]) ∧
  (undisturbed (server h) = true →
   on_screen (server h) (pointer (server h)).1 (pointer (server h)).2 →
   L = pointer (server h)).
Proof.
  intros r pressed L Hp Hd Hd0 Hd1. unfold r.
  rewrite drag_relative_play. unfold script_of. cbv zeta. fold pressed. fold L.
  set (l := (press_script pressed sync ++ delay_script delays 0)
            ++ (QueryPointer :: motion_script (L.1 + x) (L.2 + y) sync
                ++ delay_script delays 1 ++ release_script detail sync)
            ++ [QueryPointer]).
  assert (int16 (L.1 + x) = true → int16 (L.2 + y) = true →
          forallb sendable l = true) as Hok.
  { intros Hx Hy. unfold l. rewrite !forallb_app. cbn [forallb sendable andb].
    rewrite !forallb_app.
    by rewrite sendable_press, !sendable_delay, sendable_motion, sendable_release. }
  split; [|split].
  - intros Hx Hy. rewrite play_all by auto. unfold located. cbn [snd].
    rewrite issued_after. unfold l. repeat split.
    + rewrite !button_events_app, button_events_press, button_events_delay.
      cbn [button_events app].
      by rewrite !button_events_app, button_events_motion, button_events_delay,
        button_events_release.
    + by read_motions.
  - intros Hs Hxy. destruct (on_screen_int16 _ _ _ Hxy) as [Hx Hy].
    rewrite play_all by auto. unfold located, after. cbn [fst server].
    assert (l = ((press_script pressed sync ++ delay_script delays 0)
                 ++ [QueryPointer])
                ++ FakeInput MotionNotify 0 (L.1 + x) (L.2 + y)
                :: (sync_script sync ++ [QueryPointer])
                   ++ delay_script delays 1 ++ release_script detail sync
                   ++ [QueryPointer]) as ->.
    { unfold l, motion_script. rewrite <- !app_assoc. f_equal. f_equal.
      cbn [app]. f_equal. f_equal. by rewrite <- !app_assoc. }
    rewrite pointer_serves_motion; try done.
    rewrite !forallb_app, still_sync_script, still_delay_script, still_release. done.
  - intros Hs Hhere. unfold L. rewrite answer_undisturbed.
    + unfold after. cbn [server]. apply pointer_serves_still; try done.
      by rewrite forallb_app, still_press, still_delay_script.
    + by apply undisturbed_serves.
    + unfold after. cbn [server].
      rewrite pointer_serves_still; [by apply on_screen_serves|done| |done].
      by rewrite forallb_app, still_press, still_delay_script.
Qed.

Lemma drag_relative_moves_while_pressed_witness :
  card8 (resolve (button_ids (this fresh)) 1 None) = true ∧ card8 1 = true ∧
  sleepable drag_delays 0 = true ∧ sleepable drag_delays 1 = true ∧
  undisturbed (server fresh) = true ∧
  on_screen (server fresh) (100 + 5) (100 + -10) ∧
  button_events (issued fresh (drag_relative 5 (-10) 1 None true drag_delays fresh).2) =
    [(ButtonPress, 1); (ButtonRelease, 1)] ∧
  (drag_relative 5 (-10) 1 None true drag_delays fresh).1 = Returned [105; 90].
Proof.
  do 5 (split; [reflexivity|]).
  split; [unfold on_screen; vm_compute; intuition discriminate|].
  destruct (drag_relative_moves_while_pressed 5 (-10) 1 None true drag_delays fresh)
    as (Htrace & Hret & _); [reflexivity..|].
  split.
  - apply Htrace; reflexivity.
  - apply Hret; [reflexivity | unfold on_screen; vm_compute; intuition discriminate].
Defined.

(** X12.  There and back: when no other client moves the pointer and both
    ends are on the screen, [move_relative(x, y)] followed by
    [move_relative(-x, -y)] returns the location the pointer started at. *)
Theorem move_relative_there_and_back x y sync h :
  undisturbed (server h) = true →
  on_screen (server h) (pointer (server h)).1 (pointer (server h)).2 →
  on_screen (server h) ((pointer (server h)).1 + x) ((pointer (server h)).2 + y) →
  ((move_relative x y sync ;; move_relative (- x) (- y) sync) h).1 =
  Returned [(pointer (server h)).1; (pointer (server h)).2].
Proof.
  intros Hs Hhere Hthere.
  pose proof (answer_undisturbed h Hs Hhere) as HL.
  destruct (move_relative_lands x y sync h Hs) as (Hret & Hp & Hs' & Hw & Hh);
    [by rewrite HL|].
  rewrite HL in Hret, Hp.
  destruct (move_relative x y sync h) as [o h1] eqn:E. cbn [fst snd] in *.
  subst o. rewrite (bind_run _ _ _ _ _ E).
  assert (answer h1 = pointer (server h1)) as HL1.
  { apply answer_undisturbed; [done|]. unfold on_screen. by rewrite Hp, Hw, Hh. }
  destruct (move_relative_lands (- x) (- y) sync h1 Hs') as (Hback & _).
  - unfold on_screen. rewrite HL1, Hp, Hw, Hh. cbn [fst snd].
    destruct Hhere. split; lia.
  - rewrite Hback, HL1, Hp. cbn [fst snd]. do 3 f_equal; lia.
Qed.

Lemma move_relative_there_and_back_witness :
  undisturbed (server fresh) = true ∧
  on_screen (server fresh) 100 100 ∧
  on_screen (server fresh) (100 + 30) (100 + -40) ∧
  ((move_relative 30 (-40) false ;; move_relative (- 30) (- -40) false) fresh).1 =
  Returned [100; 100].
Proof.
  split; [reflexivity|].
  split; [unfold on_screen; vm_compute; intuition discriminate|].
  split; [unfold on_screen; vm_compute; intuition discriminate|].
  apply (move_relative_there_and_back 30 (-40) false fresh).
  - reflexivity.
  - unfold on_screen; vm_compute; intuition discriminate.
  - unfold on_screen; vm_compute; intuition discriminate.
Defined.

(** X13.  What a call raises.  A call raises [struct.error] when the
    binding cannot pack an id or a coordinate, [OverflowError] when the
    clock does not take a delay, and, [drag_absolute] only, [NameError] for
    [_target_id]; no call raises [KeyError], [IndexError] or [TypeError],
    and [drag_absolute] never returns.  A call whose events and delays are
    all taken returns, unless it is [drag_absolute]. *)
Theorem calls_raise_only_what_is_refused h c :
  match failure h c with
  | None => match c with DragAbsolute _ _ _ _ _ _ => False | _ => True end
  | Some StructError | Some OverflowError => True
  | Some (NameError name) =>
      name = "_target_id"%string ∧
      match c with DragAbsolute _ _ _ _ _ _ => True | _ => False end
  | Some _ => False
  end ∧
  (forallb sendable (script_of h c) = true →
   failure h c = match c with
                 | DragAbsolute _ _ _ _ _ _ => Some (NameError "_target_id")
                 | _ => None
                 end).
Proof.
  rewrite failure_script. split.
  - assert (∀ l, match refusal l with
                 | Some StructError | Some OverflowError | None => True
                 | Some _ => False
                 end) as Hkind.
    { induction l as [|a l IH]; [done|]. cbn [refusal].
      destruct (sendable a); [done|]. by destruct a. }
    specialize (Hkind (script_of h c)).
    destruct (refusal (script_of h c)) as [[]|]; try done. by destruct c.
  - intros Hok. by destruct (sendable_all _ Hok) as [_ ->].
Qed.

Lemma calls_raise_only_what_is_refused_witness :
  forallb sendable (script_of fresh (DragRelative 5 (-10) 1 None true drag_delays)) =
    true ∧
  failure fresh (DragRelative 5 (-10) 1 None true drag_delays) = None.
Proof.
  split; [reflexivity|].
  apply (calls_raise_only_what_is_refused fresh
           (DragRelative 5 (-10) 1 None true drag_delays)).
  reflexivity.
Defined.

(** X14.  [scroll] looks its four buttons up by name and falls back to 4,
    5, 6 and 7: on a table that has none of the four names it sends what it
    sends on the default table. *)
Theorem scroll_falls_back_to_default_ids x y h h' :
  button_ids (this h) !! "scroll_up" = None →
  button_ids (this h) !! "scroll_down" = None →
  button_ids (this h) !! "scroll_left" = None →
  button_ids (this h) !! "scroll_right" = None →
  button_ids (this h') = default_button_ids →
  (scroll x y h).1 = Returned tt ∧
  issued h (scroll x y h).2 = issued h' (scroll x y h').2.
Proof.
  intros Hu Hd Hl Hr Hdefault. rewrite !scroll_play.
  assert (scroll_script (button_ids (this h')) x y =
          scroll_script (button_ids (this h)) x y) as ->.
  { unfold scroll_script, vertical_button, horizontal_button.
    by rewrite Hu, Hd, Hl, Hr, Hdefault. }
  assert (forallb sendable (scroll_script (button_ids (this h)) x y) = true) as Hok.
  { unfold scroll_script, vertical_button, horizontal_button.
    rewrite Hu, Hd, Hl, Hr, forallb_app.
    rewrite !sendable_clicks; [done | by destruct (0 <? x) | by destruct (0 <? y)]. }
  rewrite !play_all_run by done. cbn [fst snd]. by rewrite !issued_after.
Qed.

Lemma scroll_falls_back_to_default_ids_witness :
  issued (mkHeap (mkXMouse_Remote (mkDisplay None 1920 1080) {[ "left" := 1 ]} ∅ ∅)
                 (idle_server 1920 1080 (0, 0)))
         (scroll 2 (-1)
            (mkHeap (mkXMouse_Remote (mkDisplay None 1920 1080) {[ "left" := 1 ]} ∅ ∅)
                    (idle_server 1920 1080 (0, 0)))).2 =
  issued fresh (scroll 2 (-1) fresh).2.
Proof.
  apply (scroll_falls_back_to_default_ids 2 (-1)
           (mkHeap (mkXMouse_Remote (mkDisplay None 1920 1080) {[ "left" := 1 ]} ∅ ∅)
                   (idle_server 1920 1080 (0, 0)))
           fresh); reflexivity.
Defined.

(** X15.  The two axes of [scroll] are independent and the vertical one
    goes first: [scroll(x, y)] is [scroll(0, y)] followed by
    [scroll(x, 0)]. *)
Theorem scroll_splits_by_axis x y h :
  (scroll 0 y ;; scroll x 0) h = scroll x y h.
Proof.
  rewrite (as_script _ _ _ _ (scroll_play 0 y h)), (scroll_play x y).
  unfold scroll_script at 1 2. change (Z.abs 0) with 0.
  rewrite clicks_zero, app_nil_r, play_app, !play_bind.
  destruct (refusal _); [done|].
  rewrite scroll_play. unfold scroll_script. change (Z.abs 0) with 0.
  by rewrite clicks_zero.
Qed.
